(** * The duckdb-sql tool adapter: [internal/tools/duckdbsql/duckdbsql.go]

    A shallow embedding of the adapter (configuration-time [Initialize],
    call-time [Invoke], the two manifest accessors) together with the
    properties its specification states about them.  The registration of
    the kind at start-up, the decoding of the configuration, [Authorized]
    and [ParseParams] only forward to other packages and are left out.

    Go values are modelled as follows.
    - [error]: the builtin interface; [fmt.Errorf] calls are kept as the
      format string with its arguments, so the failing stage is read off the
      format string exactly as the source wrote it.
    - an [any] that holds a driver's value: a [value]; Go's [nil] is [VNil].
    - [map[string]interface{}]: a [gmap string value]; a key bound to Go's
      [nil] is a key bound to [VNil], a key that is absent has no binding.
    - [[]any]: a [slice], which is either Go's nil slice or a backing list.
    - the [any] that [Invoke] returns: [any], the nil interface value or a
      slice of records.
    - [(T, error)] results of collaborators: [error + T].
    - [*sql.Rows]: a state that each call on the cursor transforms, and that
      logs the calls it served.
    - [context.Context] is not modelled: cancellation shows up as the error
      the handle or the cursor reports. *)

From stdpp Require Import gmap strings list fin_maps.

Open Scope string_scope.
Open Scope list_scope.

(** ** Builtins *)

(** Values of Go's [any] as produced by a [database/sql] driver. *)
Inductive value :=
  | VNil
  | VInt (n : Z)
  | VStr (s : string)
  | VBool (b : bool).

#[global] Instance value_eq_dec : EqDecision value.
Proof. solve_decision. Defined.

(** Go's [error].  [External] is an error value created by a collaborator
    (driver, parameter resolver); [Errorf] is a call of [fmt.Errorf]. *)
Inductive error :=
  | External (msg : string)
  | Errorf (format : string) (args : list fmt_arg)
with fmt_arg :=
  | ArgStr (s : string)
  | ArgStrs (ss : list string)
  | ArgErr (e : error).

(** Go slices: the nil slice has no backing array. *)
Inductive slice (A : Type) :=
  | nil_slice
  | backed (elems : list A).
Arguments nil_slice {A}.
Arguments backed {A} elems.

Definition elems {A} (s : slice A) : list A :=
  match s with nil_slice => [] | backed l => l end.

Definition len {A} (s : slice A) : nat := length (elems s).

Definition append {A} (s : slice A) (x : A) : slice A :=
  backed (elems s ++ [x]).

(** ** [database/sql] as the adapter uses it *)
Module sql.

(** What the engine will deliver for one query: the column names (or the
    error [Columns] reports), the rows in delivery order (each either the
    driver's values or the error scanning it raises), the error [Err]
    reports once iteration stops and the error the first [Close] reports. *)
Record Result := {
  res_columns : error + list string;
  res_rows : list (error + list value);
  res_err : option error;
  res_close : option error
}.

(** The handle: a statement and its positional arguments either fail or
    are answered by a result. *)
Definition DB : Type := string → list value → error + Result.

Inductive call :=
  | CallColumns
  | CallNext (more : bool)
  | CallScan (err : option error)
  | CallClose (err : option error)
  | CallErr (err : option error).

(** [*sql.Rows]: the cursor over one result, with the calls it served
    (oldest first). *)
Record Rows := {
  result : Result;
  remaining : list (error + list value);
  current : option (error + list value);
  closed : bool;
  calls : list call
}.

Definition QueryContext (db : DB) (query : string) (args : list value)
  : error + Rows :=
  match db query args with
  | inl err => inl err
  | inr res =>
      inr {| result := res; remaining := res_rows res; current := None;
             closed := false; calls := [] |}
  end.

Definition Columns (rs : Rows) : (error + list string) * Rows :=
  (res_columns (result rs),
   {| result := result rs; remaining := remaining rs; current := current rs;
      closed := closed rs; calls := calls rs ++ [CallColumns] |}).

Definition Next (rs : Rows) : bool * Rows :=
  if closed rs then
    (false,
     {| result := result rs; remaining := remaining rs; current := None;
        closed := true; calls := calls rs ++ [CallNext false] |})
  else
    match remaining rs with
    | [] =>
        (false,
         {| result := result rs; remaining := []; current := None;
            closed := false; calls := calls rs ++ [CallNext false] |})
    | row :: rest =>
        (true,
         {| result := result rs; remaining := rest; current := Some row;
            closed := false; calls := calls rs ++ [CallNext true] |})
    end.

(** The outcome of scanning [current] into [ndest] destinations:
    [database/sql] refuses a destination count different from the row's
    width, and passes a driver value to an [*any] destination as it is. *)
Definition scan_outcome (ndest : nat) (cur : option (error + list value))
  : error + list value :=
  match cur with
  | None => inl (External "sql: Scan called without calling Next")
  | Some (inl err) => inl err
  | Some (inr vals) =>
      if decide (length vals = ndest) then inr vals
      else inl (External "sql: wrong number of destination arguments in Scan")
  end.

(** [rows.Scan(valuePtrs...)]: on success the buffer the pointers refer to
    holds the row; on failure it is left as it was. *)
Definition Scan (rs : Rows) (values : list value)
  : (option error * list value) * Rows :=
  let out := scan_outcome (length values) (current rs) in
  let err := match out with inl e => Some e | inr _ => None end in
  ((err, match out with inl _ => values | inr vals => vals end),
   {| result := result rs; remaining := remaining rs; current := current rs;
      closed := closed rs; calls := calls rs ++ [CallScan err] |}).

(** [rows.Close()] is idempotent: only the first call reaches the driver. *)
Definition Close (rs : Rows) : option error * Rows :=
  let err := if closed rs then None else res_close (result rs) in
  (err,
   {| result := result rs; remaining := remaining rs; current := current rs;
      closed := true; calls := calls rs ++ [CallClose err] |}).

Definition Err (rs : Rows) : option error * Rows :=
  (res_err (result rs),
   {| result := result rs; remaining := remaining rs; current := current rs;
      closed := closed rs;
      calls := calls rs ++ [CallErr (res_err (result rs))] |}).

End sql.

(** ** [internal/sources] *)
Module sources.

(** A configured source.  [DuckDb] is [Some db] exactly when the dynamic
    type of the source has the method [DuckDb() *sql.DB], that is when the
    type assertion to [compatibleSource] succeeds. *)
Record Source := {
  SourceKind : string;
  DuckDb : option sql.DB
}.

End sources.

(** ** [internal/tools]: parameter definitions, resolution and manifests

    The package is a collaborator of the adapter, which calls
    [ProcessParameters], [ResolveTemplateParams], [GetParams] and the two
    views of [ParamValues].  Its source is not part of the adapter's file;
    its types and functions are modelled from the specification (sections 3,
    4.2, 4.3 and 6). *)
Module tools.

(** Modelled from the spec: the declared type of a parameter (the type set
    itself is declared in the tools package). *)
Inductive ParamType := TypeString | TypeInt | TypeBool.

(** Modelled from the spec: a ParameterDefinition, with its name, declared
    type, and whether it is required (the interface is declared in the tools
    package). *)
Record Param := {
  GetName : string;
  GetType : ParamType;
  GetRequired : bool
}.

Definition Parameters : Type := list Param.

(** Modelled from the spec: [ParamValues], the ordered (name, value) pairs
    of one invocation (declared in the tools package). *)
Definition ParamValues : Type := list (string * value).

(** Modelled from the spec: the name-keyed view of [ParamValues]
    ([AsMap], whose body is in the tools package). *)
Definition AsMap (params : ParamValues) : gmap string value :=
  foldl (λ m p, <[p.1 := p.2]> m) ∅ params.

(** Modelled from the spec: the positional view of [ParamValues]
    ([AsSlice], whose body is in the tools package), in the order of the
    pairs. *)
Definition AsSlice (params : ParamValues) : list value := params.*2.

(** Whether a value has the declared type; nil has none. *)
Definition has_type (v : value) (ty : ParamType) : bool :=
  match v, ty with
  | VStr _, TypeString | VInt _, TypeInt | VBool _, TypeBool => true
  | _, _ => false
  end.

(** Modelled from the spec: [GetParams], whose body is in the tools
    package.  It walks the definitions in declaration order and fails on a
    missing required parameter or on a value of another type than the
    declared one; an optional parameter that is absent is bound to nil. *)
Fixpoint GetParams (params : Parameters) (paramsMap : gmap string value)
  : error + ParamValues :=
  match params with
  | [] => inr []
  | p :: rest =>
      match paramsMap !! GetName p with
      | None =>
          if GetRequired p then
            inl (Errorf "parameter %q is required" [ArgStr (GetName p)])
          else
            match GetParams rest paramsMap with
            | inl err => inl err
            | inr vs => inr ((GetName p, VNil) :: vs)
            end
      | Some v =>
          if has_type v (GetType p) then
            match GetParams rest paramsMap with
            | inl err => inl err
            | inr vs => inr ((GetName p, v) :: vs)
            end
          else
            inl (Errorf "parameter %q has the wrong type" [ArgStr (GetName p)])
      end
  end.

(** The first required definition whose name the input map lacks. *)
Definition missing_required (params : Parameters)
    (paramsMap : gmap string value) : option Param :=
  snd <$> list_find
    (λ p, GetRequired p = true ∧ paramsMap !! GetName p = None) params.

Section Resolver.

(** The text-substitution engine: replaces every marker of the statement
    by the rendering of the value bound to it, and fails on a marker that
    has no binding.  The marker syntax is the engine's. *)
Variable substitute : string → gmap string value → error + string.

(** Modelled from the spec: [ResolveTemplateParams], whose body is in the
    tools package.  It fails when a required template parameter is
    missing from the input; otherwise it substitutes, in the statement
    text, the values the input binds to the declared template
    parameters, and fails on a marker without matching declaration. *)
Definition ResolveTemplateParams (templateParams : Parameters)
    (originalStatement : string) (paramsMap : gmap string value)
  : error + string :=
  match missing_required templateParams paramsMap with
  | Some p =>
      inl (Errorf "template parameter %q is required" [ArgStr (GetName p)])
  | None =>
      substitute originalStatement
        (filter (λ kv, kv.1 ∈ GetName <$> templateParams) paramsMap)
  end.

End Resolver.

(** Modelled from the spec: one entry of the human-oriented parameter
    listing (declared in the tools package). *)
Record ParameterManifest := {
  ManifestName : string;
  ManifestType : ParamType;
  ManifestRequired : bool
}.

(** Modelled from the spec: the schema-oriented listing, with the
    properties in order and the names of the required ones (declared in the
    tools package). *)
Record McpToolsSchema := {
  Properties : list (string * ParamType);
  SchemaRequired : list string
}.

(** Modelled from the spec: the two manifests (declared in the tools
    package), with the fields [Initialize] fills. *)
Record Manifest := {
  Description : string;
  ManifestParameters : list ParameterManifest;
  ManifestAuthRequired : list string
}.

Record McpManifest := {
  McpName : string;
  McpDescription : string;
  InputSchema : McpToolsSchema
}.

(** The listing entry of a definition. *)
Definition param_manifest (p : Param) : ParameterManifest :=
  {| ManifestName := GetName p; ManifestType := GetType p;
     ManifestRequired := GetRequired p |}.

(** Modelled from the spec: [ProcessParameters], whose body is in the tools
    package.  It returns the declared parameters of both kinds and their
    two listings, each naming every declared parameter once, in
    declaration order. *)
Definition ProcessParameters (templateParams params : Parameters)
  : Parameters * list ParameterManifest * McpToolsSchema :=
  let allParameters := params ++ templateParams in
  (allParameters,
   param_manifest <$> allParameters,
   {| Properties := (λ p, (GetName p, GetType p)) <$> allParameters;
      SchemaRequired := GetName <$> filter (λ p, GetRequired p = true) allParameters |}).

End tools.

(** ** Package [duckdbsql] *)

Definition kind : string := "duckdb-sql".

Module Config.
Record t := {
  Name : string;
  Kind : string;
  Source : string;
  Description : string;
  Statement : string;
  AuthRequired : list string;
  Parameters : tools.Parameters;
  TemplateParameters : tools.Parameters
}.
End Config.

Module Tool.
Record t := {
  Name : string;
  Kind : string;
  AuthRequired : list string;
  Parameters : tools.Parameters;
  TemplateParameters : tools.Parameters;
  AllParams : tools.Parameters;
  Db : sql.DB;
  Statement : string;
  manifest : tools.Manifest;
  mcpManifest : tools.McpManifest
}.
End Tool.

(** One materialized row: [map[string]interface{}]. *)
Abbreviation ResultRecord := (gmap string value).

(** The first component of [Invoke]'s result, of static type [any]: the nil
    interface value, or a [[]any] of records. *)
Inductive any :=
  | AnyNil
  | AnyRows (result : slice ResultRecord).

(** How a call ends: it returns its pair, or it panics.  [Unfinished] marks a
    row loop cut off before the cursor was drained. *)
Inductive outcome :=
  | Return (res : any) (err : option error)
  | Panic
  | Unfinished.

(** What a call did to its collaborators: the statements it submitted to the
    handle (oldest first) and the cursor it obtained, in its final state. *)
Record effects := {
  submitted : list (string * list value);
  cursor : option sql.Rows
}.

Definition no_effects : effects := {| submitted := []; cursor := None |}.

(** Lines 170-180: the record of one row.  [i] is the index of the head of
    [cols] in the scan buffer [values]; an index outside the buffer is Go's
    run-time panic, here [None]. *)
Fixpoint fill_row (cols : list string) (i : nat) (values : list value)
    (rowMap : ResultRecord) : option ResultRecord :=
  match cols with
  | [] => Some rowMap
  | col :: cols' =>
      match values !! i with
      | None => None
      | Some val =>
          match val with
          | VNil => fill_row cols' (S i) values (<[col := VNil]> rowMap)
          | _ => fill_row cols' (S i) values (<[col := val]> rowMap)
          end
      end
  end.

(** How the row loop is left. *)
Inductive loop_exit :=
  | Drained (result : slice ResultRecord)
  | Aborted (out : outcome).

(** Lines 163-182: [for rows.Next() { ... }].  Each turn consumes one
    remaining row, so [fuel] above their number is never used up. *)
Fixpoint scan_rows (fuel : nat) (rows : sql.Rows) (cols : list string)
    (values : list value) (result : slice ResultRecord)
  : loop_exit * sql.Rows :=
  match fuel with
  | 0 => (Aborted Unfinished, rows)
  | S fuel' =>
      let '(more, rows) := sql.Next rows in
      if more then
        let '((err, values), rows) := sql.Scan rows values in
        match err with
        | Some err =>
            (Aborted (Return AnyNil
                     (Some (Errorf "unable to scan row: %w" [ArgErr err]))),
             rows)
        | None =>
            match fill_row cols 0 values ∅ with
            | None => (Aborted Panic, rows)
            | Some rowMap =>
                scan_rows fuel' rows cols values (append result rowMap)
            end
        end
      else (Drained result, rows)
  end.

(** Lines 148-192: what [Invoke] does with the cursor it obtained, up to its
    [return]; the deferred [Close] is run by [Invoke]. *)
Definition materialize (rows : sql.Rows) : outcome * sql.Rows :=
  let '(cols, rows) := sql.Columns rows in
  match cols with
  | inl err =>
      (Return AnyNil (Some (Errorf "unable to get column names: %w" [ArgErr err])),
       rows)
  | inr cols =>
      let values := replicate (length cols) VNil in
      match scan_rows (S (length (sql.remaining rows))) rows cols values nil_slice
      with
      | (Aborted out, rows) => (out, rows)
      | (Drained result, rows) =>
          let '(err, rows) := sql.Close rows in
          match err with
          | Some err =>
              (Return AnyNil
                 (Some (Errorf "unable to close rows: %w" [ArgErr err])),
               rows)
          | None =>
              let '(err, rows) := sql.Err rows in
              match err with
              | Some err =>
                  (Return AnyNil
                     (Some (Errorf "error iterating rows: %w" [ArgErr err])),
                   rows)
              | None => (Return (AnyRows result) None, rows)
              end
          end
      end
  end.

Section Adapter.

(** [duckdb.SourceKind], a constant of the package [internal/sources/duckdb]. *)
Variable duckdb_SourceKind : string.

(** The text-substitution engine behind [tools.ResolveTemplateParams]. *)
Variable substitute : string → gmap string value → error + string.

Definition compatibleSources : list string := [duckdb_SourceKind].

(** [Config.Initialize], lines 64-99. *)
Definition Initialize (c : Config.t) (srcs : gmap string sources.Source)
  : option Tool.t * option error :=
  match srcs !! Config.Source c with
  | None =>
      (None, Some (Errorf "no source named %q configured" [ArgStr (Config.Source c)]))
  | Some rawS =>
      match sources.DuckDb rawS with
      | None =>
          (None,
           Some (Errorf "invalid source for %q tool: source kind must be one of %q"
                   [ArgStr kind; ArgStrs compatibleSources]))
      | Some db =>
          let '(allParameters, paramManifest, paramMcpManifest) :=
            tools.ProcessParameters (Config.TemplateParameters c)
              (Config.Parameters c) in
          let mcpManifest :=
            {| tools.McpName := Config.Name c;
               tools.McpDescription := Config.Description c;
               tools.InputSchema := paramMcpManifest |} in
          let t :=
            {| Tool.Name := Config.Name c;
               Tool.Kind := kind;
               Tool.Parameters := Config.Parameters c;
               Tool.TemplateParameters := Config.TemplateParameters c;
               Tool.AllParams := allParameters;
               Tool.Statement := Config.Statement c;
               Tool.AuthRequired := Config.AuthRequired c;
               Tool.Db := db;
               Tool.manifest :=
                 {| tools.Description := Config.Description c;
                    tools.ManifestParameters := paramManifest;
                    tools.ManifestAuthRequired := Config.AuthRequired c |};
               Tool.mcpManifest := mcpManifest |} in
          (Some t, None)
      end
  end.

(** [Config.ToolConfigKind], lines 102-104. *)
Definition ToolConfigKind (c : Config.t) : string := kind.

(** [Tool.Invoke], lines 128-193. *)
Definition Invoke (t : Tool.t) (params : tools.ParamValues)
  : outcome * effects :=
  let paramsMap := tools.AsMap params in
  match tools.ResolveTemplateParams substitute (Tool.TemplateParameters t)
          (Tool.Statement t) paramsMap with
  | inl err =>
      (Return AnyNil
         (Some (Errorf "unable to extract template params %w" [ArgErr err])),
       no_effects)
  | inr newStatement =>
      match tools.GetParams (Tool.Parameters t) paramsMap with
      | inl err =>
          (Return AnyNil
             (Some (Errorf "unable to extract standard params %w" [ArgErr err])),
           no_effects)
      | inr newParams =>
          let sliceParams := tools.AsSlice newParams in
          match sql.QueryContext (Tool.Db t) newStatement sliceParams with
          | inl err =>
              (Return AnyNil
                 (Some (Errorf "unable to execute query: %w" [ArgErr err])),
               {| submitted := [(newStatement, sliceParams)]; cursor := None |})
          | inr rows =>
              let '(out, rows) := materialize rows in
              (out,
               {| submitted := [(newStatement, sliceParams)];
                  cursor := Some (sql.Close rows).2 |})
          end
      end
  end.

(** [Tool.Manifest], lines 196-198. *)
Definition Manifest (t : Tool.t) : tools.Manifest := Tool.manifest t.

(** [Tool.McpManifest], lines 201-203. *)
Definition McpManifest (t : Tool.t) : tools.McpManifest := Tool.mcpManifest t.

End Adapter.

(** * Auxiliary definitions

    The functions and predicates the statements below are written with. *)

(** The returns of [Invoke] on a failing stage: the nil result and the error
    of the stage, wrapped as the source wraps it. *)
Definition scan_error (err : error) : outcome :=
  Return AnyNil (Some (Errorf "unable to scan row: %w" [ArgErr err])).

(** The loop as a function of the rows still to come. *)
Fixpoint drain (cols : list string) (items : list (error + list value))
    (result : slice ResultRecord) : loop_exit :=
  match items with
  | [] => Drained result
  | item :: rest =>
      match sql.scan_outcome (length cols) (Some item) with
      | inl err => Aborted (scan_error err)
      | inr vals =>
          match fill_row cols 0 vals ∅ with
          | None => Aborted Panic
          | Some rowMap => drain cols rest (append result rowMap)
          end
      end
  end.

(** The calls the row loop makes on the cursor. *)
Definition iteration_call (c : sql.call) : Prop :=
  match c with sql.CallNext _ | sql.CallScan _ => True | _ => False end.

(** The cursor [QueryContext] hands out for a result. *)
Definition fresh_cursor (res : sql.Result) : sql.Rows :=
  {| sql.result := res; sql.remaining := sql.res_rows res;
     sql.current := None; sql.closed := false; sql.calls := [] |}.

Definition columns_error (err : error) : outcome :=
  Return AnyNil (Some (Errorf "unable to get column names: %w" [ArgErr err])).

Definition close_error (err : error) : outcome :=
  Return AnyNil (Some (Errorf "unable to close rows: %w" [ArgErr err])).

Definition iteration_error (err : error) : outcome :=
  Return AnyNil (Some (Errorf "error iterating rows: %w" [ArgErr err])).

(** Lines 184-192 as a function of how the loop was left. *)
Definition finish (res : sql.Result) (ex : loop_exit) : outcome :=
  match ex with
  | Aborted out => out
  | Drained result =>
      match sql.res_close res with
      | Some err => close_error err
      | None =>
          match sql.res_err res with
          | Some err => iteration_error err
          | None => Return (AnyRows result) None
          end
      end
  end.

(** What [Invoke] returns once the handle answered with [res]. *)
Definition materialized (res : sql.Result) : outcome :=
  match sql.res_columns res with
  | inl err => columns_error err
  | inr cols => finish res (drain cols (sql.res_rows res) nil_slice)
  end.

(** The record [fill_row] makes of a scanned row. *)
Definition record_of (cols : list string) (row : list value)
    (rec : ResultRecord) : Prop :=
  fill_row cols 0 row ∅ = Some rec.

Definition template_error (err : error) : outcome :=
  Return AnyNil (Some (Errorf "unable to extract template params %w" [ArgErr err])).

Definition params_error (err : error) : outcome :=
  Return AnyNil (Some (Errorf "unable to extract standard params %w" [ArgErr err])).

Definition query_error (err : error) : outcome :=
  Return AnyNil (Some (Errorf "unable to execute query: %w" [ArgErr err])).

(** The stages of one invocation, as far as it got. *)
Inductive stage (substitute : string → gmap string value → error + string)
    (t : Tool.t) (params : tools.ParamValues) : outcome → effects → Prop :=
  | StageTemplate err :
      tools.ResolveTemplateParams substitute (Tool.TemplateParameters t)
        (Tool.Statement t) (tools.AsMap params) = inl err →
      stage substitute t params (template_error err) no_effects
  | StageParams stmt err :
      tools.ResolveTemplateParams substitute (Tool.TemplateParameters t)
        (Tool.Statement t) (tools.AsMap params) = inr stmt →
      tools.GetParams (Tool.Parameters t) (tools.AsMap params) = inl err →
      stage substitute t params (params_error err) no_effects
  | StageQuery stmt ps err :
      tools.ResolveTemplateParams substitute (Tool.TemplateParameters t)
        (Tool.Statement t) (tools.AsMap params) = inr stmt →
      tools.GetParams (Tool.Parameters t) (tools.AsMap params) = inr ps →
      Tool.Db t stmt (tools.AsSlice ps) = inl err →
      stage substitute t params (query_error err)
        {| submitted := [(stmt, tools.AsSlice ps)]; cursor := None |}
  | StageCursor stmt ps res rs :
      tools.ResolveTemplateParams substitute (Tool.TemplateParameters t)
        (Tool.Statement t) (tools.AsMap params) = inr stmt →
      tools.GetParams (Tool.Parameters t) (tools.AsMap params) = inr ps →
      Tool.Db t stmt (tools.AsSlice ps) = inr res →
      sql.result rs = res →
      sql.closed rs = true →
      (∀ err, sql.CallErr (Some err) ∈ sql.calls rs →
              materialized res = iteration_error err) →
      stage substitute t params (materialized res)
        {| submitted := [(stmt, tools.AsSlice ps)]; cursor := Some rs |}.

(** ** The calls on the cursor *)

(** The calls the row loop makes on the cursor for the rows still to come:
    a [Next] and a [Scan] per row, up to the first scan that fails or to the
    [Next] that finds no row. *)
Fixpoint loop_calls (cols : list string) (items : list (error + list value))
  : list sql.call :=
  match items with
  | [] => [sql.CallNext false]
  | item :: rest =>
      match sql.scan_outcome (length cols) (Some item) with
      | inl err => [sql.CallNext true; sql.CallScan (Some err)]
      | inr vals =>
          match fill_row cols 0 vals ∅ with
          | None => [sql.CallNext true; sql.CallScan None]
          | Some _ =>
              sql.CallNext true :: sql.CallScan None :: loop_calls cols rest
          end
      end
  end.

(** The calls [Invoke] makes, from [Columns] to the deferred [Close], on the
    cursor of the result [res]. *)
Definition expected_calls (res : sql.Result) : list sql.call :=
  sql.CallColumns ::
  match sql.res_columns res with
  | inl _ => [sql.CallClose (sql.res_close res)]
  | inr cols =>
      loop_calls cols (sql.res_rows res) ++
      match drain cols (sql.res_rows res) nil_slice with
      | Aborted _ => [sql.CallClose (sql.res_close res)]
      | Drained _ =>
          match sql.res_close res with
          | Some err => [sql.CallClose (Some err); sql.CallClose None]
          | None =>
              [sql.CallClose None; sql.CallErr (sql.res_err res);
               sql.CallClose None]
          end
      end
  end.

(** Where a cursor stands in its life, as far as the order of the calls on
    it is concerned. *)
Inductive cursor_phase :=
  | Opened
  | Described
  | Advanced
  | Scanned
  | Failed
  | Stopped
  | ClosedClean
  | Checked
  | CloseFailed
  | Released.

(** The calls a phase allows, and the phase each leads to.  [Columns] comes
    first; a [Scan] only follows a [Next] that found a row; a [Next] only
    follows [Columns] or a [Scan] that succeeded; [Err] only follows a
    [Close] that reported nothing, itself after the [Next] that found no
    row; the last call is a [Close], and a [Close] that follows another one
    reports nothing. *)
Definition protocol_step (ph : cursor_phase) (c : sql.call)
  : option cursor_phase :=
  match ph, c with
  | Opened, sql.CallColumns => Some Described
  | Described, sql.CallClose _ => Some Released
  | Described, sql.CallNext true | Scanned, sql.CallNext true => Some Advanced
  | Described, sql.CallNext false | Scanned, sql.CallNext false => Some Stopped
  | Advanced, sql.CallScan None => Some Scanned
  | Advanced, sql.CallScan (Some _) => Some Failed
  | Failed, sql.CallClose _ => Some Released
  | Stopped, sql.CallClose None => Some ClosedClean
  | Stopped, sql.CallClose (Some _) => Some CloseFailed
  | ClosedClean, sql.CallErr _ => Some Checked
  | Checked, sql.CallClose None => Some Released
  | CloseFailed, sql.CallClose None => Some Released
  | _, _ => None
  end.

Fixpoint protocol_run (ph : cursor_phase) (cs : list sql.call)
  : option cursor_phase :=
  match cs with
  | [] => Some ph
  | c :: cs' =>
      match protocol_step ph c with
      | Some ph' => protocol_run ph' cs'
      | None => None
      end
  end.

(** A whole life of a cursor: from [Opened] to [Released]. *)
Definition follows_protocol (cs : list sql.call) : Prop :=
  protocol_run Opened cs = Some Released.

(** The format strings of the errors [Invoke] makes, one per stage. *)
Definition stage_formats : list string :=
  ["unable to extract template params %w";
   "unable to extract standard params %w";
   "unable to execute query: %w";
   "unable to get column names: %w";
   "unable to scan row: %w";
   "unable to close rows: %w";
   "error iterating rows: %w"].

(** * Example inputs *)

Definition ex_substitute : string → gmap string value → error + string :=
  λ statement _, inr statement.

Definition ex_id : tools.Param :=
  {| tools.GetName := "id"; tools.GetType := tools.TypeInt;
     tools.GetRequired := true |}.

Definition ex_table : tools.Param :=
  {| tools.GetName := "table"; tools.GetType := tools.TypeString;
     tools.GetRequired := true |}.

Definition ex_engine (rows : list (error + list value)) (err close : option error)
  : sql.Result :=
  {| sql.res_columns := inr ["id"; "name"]; sql.res_rows := rows;
     sql.res_err := err; sql.res_close := close |}.

Definition ex_tool (templateParams : tools.Parameters) (engine : sql.Result)
  : Tool.t :=
  {| Tool.Name := "by-id"; Tool.Kind := kind; Tool.AuthRequired := [];
     Tool.Parameters := [ex_id]; Tool.TemplateParameters := templateParams;
     Tool.AllParams := [ex_id] ++ templateParams;
     Tool.Db := λ _ _, inr engine;
     Tool.Statement := "SELECT * FROM t WHERE id = ?";
     Tool.manifest :=
       {| tools.Description := "row by id";
          tools.ManifestParameters := tools.param_manifest <$> [ex_id] ++ templateParams;
          tools.ManifestAuthRequired := [] |};
     Tool.mcpManifest :=
       {| tools.McpName := "by-id"; tools.McpDescription := "row by id";
          tools.InputSchema :=
            (tools.ProcessParameters templateParams [ex_id]).2 |} |}.

Definition ex_config : Config.t :=
  {| Config.Name := "by-id"; Config.Kind := "some-other-kind";
     Config.Source := "my-duck"; Config.Description := "row by id";
     Config.Statement := "SELECT * FROM t WHERE id = ?";
     Config.AuthRequired := ["google"];
     Config.Parameters := [ex_id]; Config.TemplateParameters := [ex_table] |}.

Definition ex_duck : sources.Source :=
  {| sources.SourceKind := "duckdb";
     sources.DuckDb := Some (λ _ _, inr (ex_engine [] None None)) |}.

Definition ex_postgres : sources.Source :=
  {| sources.SourceKind := "postgres"; sources.DuckDb := None |}.

(** * Properties *)

(** ** The record of one row *)

Lemma fill_row_cons col cols i values (rowMap : ResultRecord) :
  fill_row (col :: cols) i values rowMap =
  values !! i ≫= λ val, fill_row cols (S i) values (<[col := val]> rowMap).
Proof. simpl. destruct (values !! i) as [[]|]; reflexivity. Qed.

(** The buffer is as wide as the column list, so no index leaves it. *)
Lemma fill_row_is_Some cols : ∀ i (values : list value) (rowMap : ResultRecord),
  (i + length cols ≤ length values)%nat →
  is_Some (fill_row cols i values rowMap).
Proof.
  induction cols as [|col cols IH]; intros i values rowMap Hlen.
  - by eexists.
  - rewrite fill_row_cons. simpl in Hlen.
    destruct (lookup_lt_is_Some_2 values i) as [val Hval]; [lia|].
    rewrite Hval. simpl. apply IH. lia.
Qed.

Lemma fill_row_dom cols : ∀ i (values : list value) (rowMap r : ResultRecord),
  fill_row cols i values rowMap = Some r →
  dom r = dom rowMap ∪ list_to_set cols.
Proof.
  induction cols as [|col cols IH]; intros i values rowMap r Hr.
  - simpl in Hr. injection Hr as <-. simpl. by rewrite (right_id_L ∅ (∪)).
  - rewrite fill_row_cons in Hr.
    destruct (values !! i) as [val|]; [simpl in Hr|done].
    rewrite (IH _ _ _ _ Hr), dom_insert_L. simpl.
    by rewrite (comm_L (∪) {[col]}), <-(assoc_L (∪)).
Qed.

Lemma fill_row_lookup_notin cols : ∀ i (values : list value) (rowMap r : ResultRecord) key,
  fill_row cols i values rowMap = Some r →
  key ∉ cols →
  r !! key = rowMap !! key.
Proof.
  induction cols as [|col cols IH]; intros i values rowMap r key Hr Hnotin.
  - simpl in Hr. by injection Hr as <-.
  - rewrite fill_row_cons in Hr.
    destruct (values !! i) as [val|]; [simpl in Hr|done].
    apply not_elem_of_cons in Hnotin as [Hne Hnotin].
    rewrite (IH _ _ _ _ _ Hr Hnotin). by rewrite lookup_insert_ne.
Qed.

(** A key is bound to the buffer cell of the last column that bears it. *)
Lemma fill_row_lookup_last cols :
  ∀ i (values : list value) (rowMap r : ResultRecord) (k : nat) key,
  fill_row cols i values rowMap = Some r →
  cols !! k = Some key →
  (∀ j : nat, (k < j)%nat → cols !! j ≠ Some key) →
  r !! key = values !! (i + k)%nat.
Proof.
  induction cols as [|col cols IH]; intros i values rowMap r k key Hr Hk Hlast.
  - done.
  - rewrite fill_row_cons in Hr.
    destruct (values !! i) as [val|] eqn:Hval; [simpl in Hr|done].
    destruct k as [|k]; simpl in Hk.
    + injection Hk as ->.
      rewrite (fill_row_lookup_notin _ _ _ _ _ key Hr).
      * by rewrite lookup_insert_eq, Nat.add_0_r.
      * intros [j Hj]%list_elem_of_lookup. apply (Hlast (S j)); [lia|done].
    + replace (i + S k)%nat with (S i + k)%nat by lia.
      apply (IH _ _ _ _ _ _ Hr Hk).
      intros j Hlt. apply (Hlast (S j)). lia.
Qed.

(** ** The row loop *)

Lemma scan_outcome_length ndest cur vals :
  sql.scan_outcome ndest cur = inr vals → length vals = ndest.
Proof.
  destruct cur as [[err|row]|]; simpl; try done.
  case_decide; [|done]. by intros [= <-].
Qed.

(** On an open cursor, with fuel above the number of remaining rows, the
    loop computes [drain]; it leaves the cursor open, its result untouched,
    and adds only [Next] and [Scan] to the calls served. *)
Lemma scan_rows_drain cols : ∀ fuel res items cur cs values result,
  (length items < fuel)%nat →
  length values = length cols →
  ∃ rs' extra,
    scan_rows fuel
      {| sql.result := res; sql.remaining := items; sql.current := cur;
         sql.closed := false; sql.calls := cs |} cols values result
    = (drain cols items result, rs') ∧
    sql.result rs' = res ∧
    sql.closed rs' = false ∧
    sql.calls rs' = cs ++ extra ∧
    Forall iteration_call extra.
Proof.
  induction fuel as [|fuel IH]; intros res items cur cs values result Hfuel Hlen.
  - lia.
  - destruct items as [|item rest].
    + simpl. eexists _, [sql.CallNext false]. repeat split; try done.
      by repeat constructor.
    + cbn [scan_rows sql.Next sql.closed sql.remaining sql.Scan sql.current
           sql.result sql.calls drain].
      rewrite Hlen.
      destruct (sql.scan_outcome (length cols) (Some item)) as [err|vals] eqn:Hscan.
      * eexists _, [sql.CallNext true; sql.CallScan (Some err)].
        repeat split; try done.
        -- simpl. by rewrite <-(assoc_L (++)).
        -- by repeat constructor.
      * destruct (fill_row cols 0 vals ∅) as [rowMap|] eqn:Hfill.
        -- simpl in Hfuel.
           destruct (IH res rest (Some item)
                       ((cs ++ [sql.CallNext true]) ++ [sql.CallScan None])
                       vals (append result rowMap))
             as (rs' & extra & Heq & Hres & Hcl & Hcalls & Hextra);
             [lia|by eapply scan_outcome_length|].
           exists rs', (sql.CallNext true :: sql.CallScan None :: extra).
           repeat split; try done.
           ++ rewrite Hcalls. by rewrite <-!(assoc_L (++)).
           ++ by repeat constructor.
        -- eexists _, [sql.CallNext true; sql.CallScan None].
           repeat split; try done.
           ++ simpl. by rewrite <-(assoc_L (++)).
           ++ by repeat constructor.
Qed.

(** The loop never panics and never stops short: it is left by a drained
    cursor or by a scan error. *)
Lemma drain_exit cols : ∀ items result,
  (∃ result', drain cols items result = Drained result') ∨
  (∃ err, drain cols items result = Aborted (scan_error err)).
Proof.
  induction items as [|item rest IH]; intros result; cbn [drain].
  - left. by eexists.
  - destruct (sql.scan_outcome (length cols) (Some item)) as [err|vals] eqn:Hscan.
    + right. eexists. reflexivity.
    + apply scan_outcome_length in Hscan.
      destruct (fill_row_is_Some cols 0 vals ∅) as [rowMap ->]; [simpl; lia|].
      apply IH.
Qed.

(** ** The cursor part of [Invoke] *)

Lemma QueryContext_fresh db query args :
  sql.QueryContext db query args =
  match db query args with
  | inl err => inl err
  | inr res => inr (fresh_cursor res)
  end.
Proof. reflexivity. Qed.

Lemma not_iteration_call_Err extra err :
  Forall iteration_call extra → sql.CallErr err ∉ extra.
Proof.
  intros Hall Hin. by apply (proj1 (Forall_forall _ _) Hall) in Hin.
Qed.

(** Case analysis on the membership of a call in the calls a cursor served
    since it was opened: the calls made before the loop, the [Next] and
    [Scan] calls of the loop, the calls made after it. *)
Ltac served_calls Hin Hextra :=
  repeat first
    [ rewrite elem_of_app in Hin
    | rewrite elem_of_cons in Hin
    | rewrite elem_of_nil in Hin ];
  destruct_or?;
  try done;
  try (by eapply not_iteration_call_Err in Hextra);
  simplify_eq;
  try done.

(** [materialize] on a fresh cursor: its outcome is [materialized]; the
    cursor keeps its result; and [Err] reported an error only on the path
    that returns it. *)
Lemma materialize_fresh res :
  ∃ rs,
    materialize (fresh_cursor res) = (materialized res, rs) ∧
    sql.result rs = res ∧
    (∀ err, sql.CallErr (Some err) ∈ sql.calls (sql.Close rs).2 →
            materialized res = iteration_error err).
Proof.
  unfold materialize, materialized, fresh_cursor.
  cbn [sql.Columns sql.result sql.remaining sql.current sql.closed sql.calls].
  destruct (sql.res_columns res) as [err|cols] eqn:Hcols.
  - eexists. split; [reflexivity|]. split; [done|].
    intros e Hin. simpl in Hin.
    pose proof (Forall_nil_2 iteration_call) as Hnil. served_calls Hin Hnil.
  - destruct (scan_rows_drain cols (S (length (sql.res_rows res))) res
                (sql.res_rows res) None ([] ++ [sql.CallColumns])
                (replicate (length cols) VNil) nil_slice)
      as (rs' & extra & -> & Hres & Hcl & Hcalls & Hextra);
      [lia|by rewrite length_replicate|].
    destruct (drain cols (sql.res_rows res) nil_slice) as [result|out] eqn:Hdrain.
    + unfold sql.Close at 1. rewrite Hcl. rewrite Hres. cbn [finish].
      destruct (sql.res_close res) as [cerr|] eqn:Hclose.
      * eexists. split; [reflexivity|]. split; [done|].
        intros e Hin. simpl in Hin. rewrite Hcalls in Hin.
        served_calls Hin Hextra.
      * cbn [sql.Err sql.result sql.calls sql.closed sql.remaining sql.current].
        destruct (sql.res_err res) as [ierr|] eqn:Hierr;
          (eexists; split; [reflexivity|]; split; [done|]);
          intros e Hin; simpl in Hin; rewrite Hcalls in Hin;
          served_calls Hin Hextra.
    + cbn [finish]. exists rs'. split; [reflexivity|]. split; [done|].
      intros e Hin. simpl in Hin. rewrite Hcalls in Hin.
      served_calls Hin Hextra.
Qed.

Lemma scan_outcome_inr ndest item vals :
  sql.scan_outcome ndest (Some item) = inr vals →
  item = inr vals ∧ length vals = ndest.
Proof.
  destruct item as [err|row]; simpl; [done|].
  case_decide; [|done]. by intros [= <-].
Qed.

Lemma scan_outcome_good ndest (row : list value) :
  length row = ndest → sql.scan_outcome ndest (Some (inr row)) = inr row.
Proof. intros Hlen. simpl. by rewrite decide_True. Qed.

(** A drained loop scanned every row, and appended their records in order. *)
Lemma drain_Drained cols : ∀ items result result',
  drain cols items result = Drained result' →
  ∃ rows recs,
    items = inr <$> rows ∧
    Forall (λ row, length row = length cols) rows ∧
    Forall2 (record_of cols) rows recs ∧
    elems result' = elems result ++ recs.
Proof.
  induction items as [|item rest IH]; intros result result'; cbn [drain].
  - intros [= <-]. exists [], []. by rewrite app_nil_r.
  - destruct (sql.scan_outcome (length cols) (Some item)) as [err|vals] eqn:Hscan;
      [done|].
    apply scan_outcome_inr in Hscan as [-> Hlen].
    destruct (fill_row cols 0 vals ∅) as [rowMap|] eqn:Hfill; [|done].
    intros (rows & recs & -> & Hall & Hrecs & Helems)%IH.
    exists (vals :: rows), (rowMap :: recs). repeat split.
    + by constructor.
    + by constructor.
    + rewrite Helems. simpl. by rewrite <-(assoc_L (++)).
Qed.

(** Rows of the right width are all scanned. *)
Lemma drain_good cols : ∀ rows result,
  Forall (λ row, length row = length cols) rows →
  ∃ result', drain cols (inr <$> rows) result = Drained result'.
Proof.
  induction rows as [|row rows IH]; intros result Hall; cbn [drain fmap list_fmap].
  - by eexists.
  - apply Forall_cons in Hall as [Hlen Hall].
    rewrite (scan_outcome_good _ _ Hlen).
    destruct (fill_row_is_Some cols 0 row ∅) as [rowMap ->]; [simpl; lia|].
    by apply IH.
Qed.

(** The first row whose scan fails ends the loop with its error. *)
Lemma drain_first_bad cols : ∀ good bad rest err result,
  Forall (λ row, length row = length cols) good →
  sql.scan_outcome (length cols) (Some bad) = inl err →
  drain cols ((inr <$> good) ++ bad :: rest) result = Aborted (scan_error err).
Proof.
  induction good as [|row good IH]; intros bad rest err result Hall Hbad;
    cbn [drain fmap list_fmap app].
  - by rewrite Hbad.
  - apply Forall_cons in Hall as [Hlen Hall].
    rewrite (scan_outcome_good _ _ Hlen).
    destruct (fill_row_is_Some cols 0 row ∅) as [rowMap ->]; [simpl; lia|].
    by apply IH.
Qed.

(** A row whose scan fails, wherever it stands, keeps the loop from
    draining the cursor. *)
Lemma drain_some_bad cols items bad err result :
  bad ∈ items →
  sql.scan_outcome (length cols) (Some bad) = inl err →
  ∃ err', drain cols items result = Aborted (scan_error err').
Proof.
  intros Hin Hbad.
  destruct (drain_exit cols items result) as [[result' Hd]|Hd]; [|done].
  apply drain_Drained in Hd as (rows & recs & -> & Hall & _).
  apply list_elem_of_fmap in Hin as (row & -> & Hrow).
  rewrite scan_outcome_good in Hbad; [done|].
  by apply (proj1 (Forall_forall _ _) Hall).
Qed.

(** ** [Invoke], stage by stage *)

Lemma Invoke_stage substitute t params :
  stage substitute t params (Invoke substitute t params).1
    (Invoke substitute t params).2.
Proof.
  unfold Invoke.
  destruct (tools.ResolveTemplateParams _ _ _ _) as [err|stmt] eqn:Htpl.
  { by apply StageTemplate. }
  destruct (tools.GetParams _ _) as [err|ps] eqn:Hps.
  { by eapply StageParams. }
  rewrite QueryContext_fresh.
  destruct (Tool.Db t stmt (tools.AsSlice ps)) as [err|res] eqn:Hdb.
  { by eapply StageQuery. }
  destruct (materialize_fresh res) as (rs & -> & Hres & Herr).
  cbn [fst snd].
  by eapply StageCursor.
Qed.

(** Once the handle answered, the outcome is [materialized]. *)
Lemma Invoke_answered substitute t params stmt ps engine :
  tools.ResolveTemplateParams substitute (Tool.TemplateParameters t)
    (Tool.Statement t) (tools.AsMap params) = inr stmt →
  tools.GetParams (Tool.Parameters t) (tools.AsMap params) = inr ps →
  Tool.Db t stmt (tools.AsSlice ps) = inr engine →
  (Invoke substitute t params).1 = materialized engine.
Proof.
  intros Htpl Hps Hdb.
  destruct (Invoke_stage substitute t params) as [| | |stmt' ps' res rs Htpl' Hps' Hdb'];
    congruence.
Qed.

(** ** Row materialization *)

(** C1. When every stage of an invocation succeeds (template resolution,
    parameter extraction, execution, column discovery, the scan of every
    row, close and the end-of-iteration check), [Invoke] returns a ResultSet
    holding exactly one record per row the engine delivered, the i-th record
    being the one made of the i-th row: nothing is reordered, dropped or
    merged. *)
Theorem Invoke_one_record_per_row substitute t params stmt ps engine cols rows :
  tools.ResolveTemplateParams substitute (Tool.TemplateParameters t)
    (Tool.Statement t) (tools.AsMap params) = inr stmt →
  tools.GetParams (Tool.Parameters t) (tools.AsMap params) = inr ps →
  Tool.Db t stmt (tools.AsSlice ps) = inr engine →
  sql.res_columns engine = inr cols →
  sql.res_rows engine = inr <$> rows →
  Forall (λ row, length row = length cols) rows →
  sql.res_close engine = None →
  sql.res_err engine = None →
  ∃ result,
    (Invoke substitute t params).1 = Return (AnyRows result) None ∧
    len result = length rows ∧
    Forall2 (record_of cols) rows (elems result).
Proof.
  intros Htpl Hps Hdb Hcols Hrows Hall Hclose Herr.
  rewrite (Invoke_answered _ _ _ _ _ _ Htpl Hps Hdb).
  unfold materialized. rewrite Hcols, Hrows.
  destruct (drain_good cols rows nil_slice Hall) as [result Hdrain].
  rewrite Hdrain. cbn [finish]. rewrite Hclose, Herr.
  exists result. split; [done|].
  apply drain_Drained in Hdrain as (rows' & recs & Heq & _ & Hrecs & Helems).
  apply (inj (fmap inr)) in Heq as <-. simpl in Helems. subst recs.
  split; [|done].
  unfold len. symmetry. by eapply Forall2_length.
Qed.

Lemma Invoke_one_record_per_row_witness :
  ∃ result,
    (Invoke ex_substitute
       (ex_tool [] (ex_engine [inr [VInt 5; VStr "a"]; inr [VInt 5; VNil]] None None))
       [("id", VInt 5)]).1
    = Return (AnyRows result) None ∧
    len result = 2 ∧
    Forall2 (record_of ["id"; "name"]) [[VInt 5; VStr "a"]; [VInt 5; VNil]]
      (elems result).
Proof.
  apply (Invoke_one_record_per_row ex_substitute _ _
           "SELECT * FROM t WHERE id = ?" [("id", VInt 5)]
           (ex_engine [inr [VInt 5; VStr "a"]; inr [VInt 5; VNil]] None None)
           ["id"; "name"] [[VInt 5; VStr "a"]; [VInt 5; VNil]]);
    try reflexivity.
  repeat constructor.
Defined.

(** C2. If the scan of row k fails (the k-1 rows before it having been
    scanned and materialized), [Invoke] returns the scan error and the nil
    result: no ResultSet, and in particular no prefix of k-1 records. *)
Theorem Invoke_scan_failure substitute t params stmt ps engine cols good bad rest err :
  tools.ResolveTemplateParams substitute (Tool.TemplateParameters t)
    (Tool.Statement t) (tools.AsMap params) = inr stmt →
  tools.GetParams (Tool.Parameters t) (tools.AsMap params) = inr ps →
  Tool.Db t stmt (tools.AsSlice ps) = inr engine →
  sql.res_columns engine = inr cols →
  sql.res_rows engine = (inr <$> good) ++ bad :: rest →
  Forall (λ row, length row = length cols) good →
  sql.scan_outcome (length cols) (Some bad) = inl err →
  (Invoke substitute t params).1 =
    Return AnyNil (Some (Errorf "unable to scan row: %w" [ArgErr err])).
Proof.
  intros Htpl Hps Hdb Hcols Hrows Hall Hbad.
  rewrite (Invoke_answered _ _ _ _ _ _ Htpl Hps Hdb).
  unfold materialized. rewrite Hcols, Hrows.
  by rewrite (drain_first_bad cols good bad rest err nil_slice Hall Hbad).
Qed.

Lemma Invoke_scan_failure_witness :
  (Invoke ex_substitute
     (ex_tool []
        (ex_engine [inr [VInt 5; VStr "a"]; inl (External "conversion failed");
                    inr [VInt 5; VNil]] None None))
     [("id", VInt 5)]).1
  = Return AnyNil
      (Some (Errorf "unable to scan row: %w" [ArgErr (External "conversion failed")])).
Proof.
  apply (Invoke_scan_failure ex_substitute _ _
           "SELECT * FROM t WHERE id = ?" [("id", VInt 5)]
           (ex_engine [inr [VInt 5; VStr "a"]; inl (External "conversion failed");
                       inr [VInt 5; VNil]] None None)
           ["id"; "name"] [[VInt 5; VStr "a"]] (inl (External "conversion failed"))
           [inr [VInt 5; VNil]]);
    try reflexivity.
  repeat constructor.
Defined.

(** C3, as stated, fails: a record does not carry the column order.  No
    function reads the engine's column order off the records, since the
    columns (a, b) with the row (1, 2) and the columns (b, a) with the row
    (2, 1) give the same record. *)
Lemma record_forgets_column_order :
  ¬ ∃ column_order : ResultRecord → list string,
      ∀ cols row rec,
        length row = length cols →
        record_of cols row rec →
        column_order rec = cols.
Proof.
  intros [column_order Horder].
  assert (record_of ["a"; "b"] [VInt 1; VInt 2] {[ "a" := VInt 1; "b" := VInt 2 ]})
    as Hab by (vm_compute; reflexivity).
  assert (record_of ["b"; "a"] [VInt 2; VInt 1] {[ "a" := VInt 1; "b" := VInt 2 ]})
    as Hba by (vm_compute; reflexivity).
  apply Horder in Hab; [|done]. apply Horder in Hba; [|done].
  congruence.
Qed.

(** C3, amended.  Every scanned row is made into a record, an unordered
    mapping from column name to value: its keys are exactly the column
    names of the result set, and each key is bound to the value the row
    holds in the last column bearing that name (for distinct column names:
    in the column of that name). *)
Theorem record_keys_and_values cols row :
  length row = length cols →
  ∃ rec,
    record_of cols row rec ∧
    dom rec = list_to_set cols ∧
    ∀ (k : nat) key,
      cols !! k = Some key →
      (∀ j : nat, (k < j)%nat → cols !! j ≠ Some key) →
      rec !! key = row !! k.
Proof.
  intros Hlen.
  destruct (fill_row_is_Some cols 0 row ∅) as [rec Hrec]; [simpl; lia|].
  exists rec. split; [done|]. split.
  - rewrite (fill_row_dom _ _ _ _ _ Hrec), dom_empty_L.
    by rewrite (left_id_L ∅ (∪)).
  - intros k key Hk Hlast.
    by rewrite (fill_row_lookup_last _ _ _ _ _ _ _ Hrec Hk Hlast).
Qed.

Lemma record_keys_and_values_witness :
  ∃ rec,
    record_of ["id"; "name"] [VInt 5; VStr "a"] rec ∧
    dom rec = list_to_set ["id"; "name"] ∧
    ∀ (k : nat) key,
      ["id"; "name"] !! k = Some key →
      (∀ j : nat, (k < j)%nat → ["id"; "name"] !! j ≠ Some key) →
      rec !! key = [VInt 5; VStr "a"] !! k.
Proof.
  apply (record_keys_and_values ["id"; "name"] [VInt 5; VStr "a"]).
  reflexivity.
Defined.

(** C4, as stated, fails: on zero rows the slice [Invoke] returns is the nil
    slice it declared, never a slice with a backing array. *)
Lemma Invoke_zero_rows_not_backed :
  ¬ ∀ substitute t params stmt ps engine cols,
      tools.ResolveTemplateParams substitute (Tool.TemplateParameters t)
        (Tool.Statement t) (tools.AsMap params) = inr stmt →
      tools.GetParams (Tool.Parameters t) (tools.AsMap params) = inr ps →
      Tool.Db t stmt (tools.AsSlice ps) = inr engine →
      sql.res_columns engine = inr cols →
      sql.res_rows engine = [] →
      sql.res_close engine = None →
      sql.res_err engine = None →
      ∃ records, (Invoke substitute t params).1
                 = Return (AnyRows (backed records)) None.
Proof.
  intros Hclaim.
  destruct (Hclaim ex_substitute (ex_tool [] (ex_engine [] None None))
              [("id", VInt 7)] "SELECT * FROM t WHERE id = ?" [("id", VInt 7)]
              (ex_engine [] None None) ["id"; "name"])
    as [records Hrecords]; try reflexivity.
  vm_compute in Hrecords. discriminate Hrecords.
Qed.

(** C4, amended.  When a query executes successfully and matches zero rows,
    [Invoke] returns no error and a result that is not the nil interface
    value: it holds a slice of length 0, which is Go's nil slice. *)
Theorem Invoke_zero_rows substitute t params stmt ps engine cols :
  tools.ResolveTemplateParams substitute (Tool.TemplateParameters t)
    (Tool.Statement t) (tools.AsMap params) = inr stmt →
  tools.GetParams (Tool.Parameters t) (tools.AsMap params) = inr ps →
  Tool.Db t stmt (tools.AsSlice ps) = inr engine →
  sql.res_columns engine = inr cols →
  sql.res_rows engine = [] →
  sql.res_close engine = None →
  sql.res_err engine = None →
  ∃ result,
    (Invoke substitute t params).1 = Return (AnyRows result) None ∧
    AnyRows result ≠ AnyNil ∧
    len result = 0 ∧
    result = nil_slice.
Proof.
  intros Htpl Hps Hdb Hcols Hrows Hclose Herr.
  rewrite (Invoke_answered _ _ _ _ _ _ Htpl Hps Hdb).
  unfold materialized. rewrite Hcols, Hrows. cbn [drain finish].
  rewrite Hclose, Herr. by exists nil_slice.
Qed.

Lemma Invoke_zero_rows_witness :
  ∃ result,
    (Invoke ex_substitute (ex_tool [] (ex_engine [] None None))
       [("id", VInt 7)]).1 = Return (AnyRows result) None ∧
    AnyRows result ≠ AnyNil ∧
    len result = 0 ∧
    result = nil_slice.
Proof.
  apply (Invoke_zero_rows ex_substitute _ _
           "SELECT * FROM t WHERE id = ?" [("id", VInt 7)]
           (ex_engine [] None None) ["id"; "name"]);
    reflexivity.
Defined.

(** C5, as stated, fails when two columns bear the same name: with the
    columns (a, a) and the row (NULL, 5) the first column is NULL, yet the
    record binds a to 5. *)
Lemma null_overwritten_by_later_column :
  ¬ ∀ cols row rec (k : nat) key,
      length row = length cols →
      record_of cols row rec →
      cols !! k = Some key →
      row !! k = Some VNil →
      rec !! key = Some VNil.
Proof.
  intros Hclaim.
  specialize (Hclaim ["a"; "a"] [VNil; VInt 5] {[ "a" := VInt 5 ]} 0%nat "a").
  assert (({[ "a" := VInt 5 ]} : ResultRecord) !! "a" = Some VNil) as Hnull.
  { apply Hclaim; reflexivity. }
  vm_compute in Hnull. discriminate Hnull.
Qed.

(** C5, amended.  In the record of a row, the key of every column is
    present, whatever the column holds; and a column that is NULL in the
    row has its key bound to the explicit nil, provided no later column of
    the result set bears the same name. *)
Theorem record_null_handling cols row rec (k : nat) key :
  record_of cols row rec →
  cols !! k = Some key →
  is_Some (rec !! key) ∧
  (row !! k = Some VNil →
   (∀ j : nat, (k < j)%nat → cols !! j ≠ Some key) →
   rec !! key = Some VNil).
Proof.
  intros Hrec Hk. split.
  - apply elem_of_dom. rewrite (fill_row_dom _ _ _ _ _ Hrec).
    apply elem_of_union_r, elem_of_list_to_set, list_elem_of_lookup. eauto.
  - intros Hnull Hlast.
    by rewrite (fill_row_lookup_last _ _ _ _ _ _ _ Hrec Hk Hlast).
Qed.

Lemma record_null_handling_witness :
  is_Some (({[ "id" := VInt 5; "name" := VNil ]} : ResultRecord) !! "name") ∧
  ([VInt 5; VNil] !! 1%nat = Some VNil →
   (∀ j : nat, (1 < j)%nat → ["id"; "name"] !! j ≠ Some "name") →
   ({[ "id" := VInt 5; "name" := VNil ]} : ResultRecord) !! "name" = Some VNil).
Proof.
  apply (record_null_handling ["id"; "name"] [VInt 5; VNil]
           {[ "id" := VInt 5; "name" := VNil ]} 1 "name").
  - vm_compute. reflexivity.
  - reflexivity.
Defined.

(** ** Missing parameters *)

Lemma missing_required_is_Some params (paramsMap : gmap string value) p :
  p ∈ params →
  tools.GetRequired p = true →
  paramsMap !! tools.GetName p = None →
  is_Some (tools.missing_required params paramsMap).
Proof.
  intros Hin Hreq Hmiss. unfold tools.missing_required.
  destruct (list_find_elem_of
              (λ p, tools.GetRequired p = true ∧ paramsMap !! tools.GetName p = None)
              params p Hin) as [[i q] ->]; [done|].
  by eexists.
Qed.

Lemma ResolveTemplateParams_missing substitute templateParams statement
    (paramsMap : gmap string value) p :
  p ∈ templateParams →
  tools.GetRequired p = true →
  paramsMap !! tools.GetName p = None →
  ∃ err, tools.ResolveTemplateParams substitute templateParams statement paramsMap
         = inl err.
Proof.
  intros Hin Hreq Hmiss. unfold tools.ResolveTemplateParams.
  destruct (missing_required_is_Some _ _ _ Hin Hreq Hmiss) as [q ->].
  by eexists.
Qed.

Lemma GetParams_missing params (paramsMap : gmap string value) p :
  p ∈ params →
  tools.GetRequired p = true →
  paramsMap !! tools.GetName p = None →
  ∃ err, tools.GetParams params paramsMap = inl err.
Proof.
  intros Hin Hreq Hmiss.
  induction params as [|q params IH]; [by apply elem_of_nil in Hin|].
  apply elem_of_cons in Hin as [<-|Hin]; simpl.
  - rewrite Hmiss, Hreq. by eexists.
  - destruct (IH Hin) as [err ->].
    destruct (paramsMap !! tools.GetName q) as [v|].
    + destruct (tools.has_type v (tools.GetType q)); by eexists.
    + destruct (tools.GetRequired q); by eexists.
Qed.

(** C6, as stated, fails: when a required template parameter and a required
    standard parameter are both missing, the error is the template one,
    since the template parameters are resolved first. *)
Lemma Invoke_missing_both_is_template_error :
  ¬ ∀ substitute t params p,
      p ∈ Tool.Parameters t →
      tools.GetRequired p = true →
      tools.AsMap params !! tools.GetName p = None →
      ∃ err, (Invoke substitute t params).1 =
             Return AnyNil
               (Some (Errorf "unable to extract standard params %w" [ArgErr err])).
Proof.
  intros Hclaim.
  destruct (Hclaim ex_substitute (ex_tool [ex_table] (ex_engine [] None None))
              [] ex_id) as [err Herr].
  - apply list_elem_of_In. by left.
  - reflexivity.
  - reflexivity.
  - vm_compute in Herr. discriminate Herr.
Qed.

(** C6, amended.  An invocation whose input lacks a required template
    parameter fails with the template-resolution error.  An invocation
    whose input lacks a required standard parameter fails as well, with the
    parameter-validation error whenever the template parameters resolve
    (they are resolved first).  In both cases nothing is submitted to the
    handle and no cursor is obtained. *)
Theorem Invoke_missing_parameter substitute t params p :
  tools.GetRequired p = true →
  tools.AsMap params !! tools.GetName p = None →
  (p ∈ Tool.TemplateParameters t →
   ∃ err, Invoke substitute t params =
          (Return AnyNil
             (Some (Errorf "unable to extract template params %w" [ArgErr err])),
           {| submitted := []; cursor := None |})) ∧
  (p ∈ Tool.Parameters t →
   (∃ err, (Invoke substitute t params).1 = Return AnyNil (Some err)) ∧
   submitted (Invoke substitute t params).2 = [] ∧
   ∀ stmt,
     tools.ResolveTemplateParams substitute (Tool.TemplateParameters t)
       (Tool.Statement t) (tools.AsMap params) = inr stmt →
     ∃ err, Invoke substitute t params =
            (Return AnyNil
               (Some (Errorf "unable to extract standard params %w" [ArgErr err])),
             {| submitted := []; cursor := None |})).
Proof.
  intros Hreq Hmiss. split.
  - intros Hin.
    destruct (ResolveTemplateParams_missing substitute _ (Tool.Statement t)
                _ _ Hin Hreq Hmiss) as [err Herr].
    exists err. unfold Invoke. by rewrite Herr.
  - intros Hin.
    destruct (GetParams_missing _ _ _ Hin Hreq Hmiss) as [err Herr].
    unfold Invoke. rewrite Herr.
    destruct (tools.ResolveTemplateParams _ _ _ _) as [terr|stmt'].
    + repeat split; [by eexists|done].
    + repeat split; [by eexists|]. intros stmt _. by exists err.
Qed.

Lemma Invoke_missing_parameter_witness :
  ∃ err,
    Invoke ex_substitute (ex_tool [ex_table] (ex_engine [] None None))
      [("table", VStr "t2")] =
    (Return AnyNil
       (Some (Errorf "unable to extract standard params %w" [ArgErr err])),
     {| submitted := []; cursor := None |}).
Proof.
  destruct (Invoke_missing_parameter ex_substitute
              (ex_tool [ex_table] (ex_engine [] None None))
              [("table", VStr "t2")] ex_id) as [_ Hstandard];
    [reflexivity|reflexivity|].
  destruct Hstandard as (_ & _ & Hparams).
  - apply list_elem_of_In. by left.
  - apply (Hparams "SELECT * FROM t WHERE id = ?"). reflexivity.
Defined.

(** ** Construction *)

(** A source that has the capability makes the construction succeed. *)
Lemma Initialize_compatible duckdb_SourceKind c srcs rawS db :
  srcs !! Config.Source c = Some rawS →
  sources.DuckDb rawS = Some db →
  ∃ t, Initialize duckdb_SourceKind c srcs = (Some t, None) ∧ Tool.Db t = db.
Proof.
  intros Hsrc Hdb. unfold Initialize. rewrite Hsrc, Hdb. by eexists.
Qed.

Lemma Initialize_Some duckdb_SourceKind c srcs t err :
  Initialize duckdb_SourceKind c srcs = (Some t, err) →
  err = None ∧
  ∃ rawS db,
    srcs !! Config.Source c = Some rawS ∧ sources.DuckDb rawS = Some db ∧
    t = {| Tool.Name := Config.Name c;
           Tool.Kind := kind;
           Tool.AuthRequired := Config.AuthRequired c;
           Tool.Parameters := Config.Parameters c;
           Tool.TemplateParameters := Config.TemplateParameters c;
           Tool.AllParams :=
             (tools.ProcessParameters (Config.TemplateParameters c)
                (Config.Parameters c)).1.1;
           Tool.Db := db;
           Tool.Statement := Config.Statement c;
           Tool.manifest :=
             {| tools.Description := Config.Description c;
                tools.ManifestParameters :=
                  (tools.ProcessParameters (Config.TemplateParameters c)
                     (Config.Parameters c)).1.2;
                tools.ManifestAuthRequired := Config.AuthRequired c |};
           Tool.mcpManifest :=
             {| tools.McpName := Config.Name c;
                tools.McpDescription := Config.Description c;
                tools.InputSchema :=
                  (tools.ProcessParameters (Config.TemplateParameters c)
                     (Config.Parameters c)).2 |} |}.
Proof.
  unfold Initialize.
  destruct (srcs !! Config.Source c) as [rawS|]; [|done].
  destruct (sources.DuckDb rawS) as [db|] eqn:Hdb; [|done].
  intros [= <- <-]. split; [done|]. by exists rawS, db.
Qed.

(** C7. A configuration whose source is not in the registry is refused with
    the source-not-found error; one whose source lacks the SQL-handle
    capability is refused with the incompatible-source error, which names
    the tool kind and the accepted source kinds; in both cases the tool
    returned is nil. *)
Theorem Initialize_rejects_source duckdb_SourceKind c srcs :
  (srcs !! Config.Source c = None →
   Initialize duckdb_SourceKind c srcs =
     (None,
      Some (Errorf "no source named %q configured" [ArgStr (Config.Source c)]))) ∧
  (∀ rawS,
     srcs !! Config.Source c = Some rawS →
     sources.DuckDb rawS = None →
     Initialize duckdb_SourceKind c srcs =
       (None,
        Some (Errorf "invalid source for %q tool: source kind must be one of %q"
                [ArgStr "duckdb-sql"; ArgStrs [duckdb_SourceKind]]))).
Proof.
  unfold Initialize. split.
  - by intros ->.
  - intros rawS -> ->. reflexivity.
Qed.

Lemma Initialize_rejects_source_witness :
  Initialize "duckdb" ex_config ∅ =
    (None, Some (Errorf "no source named %q configured" [ArgStr "my-duck"])) ∧
  Initialize "duckdb" ex_config {[ "my-duck" := ex_postgres ]} =
    (None,
     Some (Errorf "invalid source for %q tool: source kind must be one of %q"
             [ArgStr "duckdb-sql"; ArgStrs ["duckdb"]])).
Proof.
  split.
  - apply (proj1 (Initialize_rejects_source "duckdb" ex_config ∅)). reflexivity.
  - apply (proj2 (Initialize_rejects_source "duckdb" ex_config
                    {[ "my-duck" := ex_postgres ]}) ex_postgres);
      reflexivity.
Defined.

(** C9. For a configuration that [Initialize] accepts, the parameters the
    tool holds are the declared ones, template and standard, each once, the
    declarations of each kind in their declaration order; the listing of
    either manifest has one entry per declaration, in that order; and the
    two accessors return what [Initialize] computed, as a function of the
    tool alone. *)
Theorem Initialize_manifests duckdb_SourceKind c srcs t :
  Initialize duckdb_SourceKind c srcs = (Some t, None) →
  Tool.AllParams t ≡ₚ Config.TemplateParameters c ++ Config.Parameters c ∧
  sublist (Config.TemplateParameters c) (Tool.AllParams t) ∧
  sublist (Config.Parameters c) (Tool.AllParams t) ∧
  tools.ManifestParameters (Manifest t) = tools.param_manifest <$> Tool.AllParams t ∧
  tools.Properties (tools.InputSchema (McpManifest t)) =
    (λ p, (tools.GetName p, tools.GetType p)) <$> Tool.AllParams t ∧
  Manifest t =
    {| tools.Description := Config.Description c;
       tools.ManifestParameters := tools.param_manifest <$> Tool.AllParams t;
       tools.ManifestAuthRequired := Config.AuthRequired c |} ∧
  McpManifest t =
    {| tools.McpName := Config.Name c;
       tools.McpDescription := Config.Description c;
       tools.InputSchema :=
         (tools.ProcessParameters (Config.TemplateParameters c)
            (Config.Parameters c)).2 |}.
Proof.
  intros Hinit.
  apply Initialize_Some in Hinit as (_ & rawS & db & _ & _ & Ht). subst t.
  unfold Manifest, McpManifest. cbn.
  repeat split.
  - apply Permutation_app_comm.
  - apply sublist_inserts_l. reflexivity.
  - apply sublist_inserts_r. reflexivity.
Qed.

Lemma Initialize_manifests_witness :
  ∃ t,
    Initialize "duckdb" ex_config {[ "my-duck" := ex_duck ]} = (Some t, None) ∧
    tools.ManifestName <$> tools.ManifestParameters (Manifest t) = ["id"; "table"] ∧
    (tools.Properties (tools.InputSchema (McpManifest t))).*1 = ["id"; "table"].
Proof.
  destruct (Initialize_compatible "duckdb" ex_config {[ "my-duck" := ex_duck ]}
              ex_duck (λ _ _, inr (ex_engine [] None None)))
    as (t & Ht & _); [reflexivity|reflexivity|].
  exists t. split; [exact Ht|].
  destruct (Initialize_manifests "duckdb" ex_config _ t Ht)
    as (_ & _ & _ & Hlisting & Hschema & _).
  rewrite Hlisting, Hschema.
  apply Initialize_Some in Ht as (_ & rawS & db & _ & _ & Heq). subst t.
  split; reflexivity.
Defined.

(** C10. The tool [Initialize] produces has the kind "duckdb-sql", whatever
    kind the configuration carries. *)
Theorem Initialize_kind duckdb_SourceKind c srcs t :
  Initialize duckdb_SourceKind c srcs = (Some t, None) →
  Tool.Kind t = "duckdb-sql".
Proof.
  intros Hinit.
  apply Initialize_Some in Hinit as (_ & rawS & db & _ & _ & Ht). by subst t.
Qed.

Lemma Initialize_kind_witness :
  ∃ t,
    Initialize "duckdb" ex_config {[ "my-duck" := ex_duck ]} = (Some t, None) ∧
    Config.Kind ex_config = "some-other-kind" ∧
    Tool.Kind t = "duckdb-sql".
Proof.
  destruct (Initialize_compatible "duckdb" ex_config {[ "my-duck" := ex_duck ]}
              ex_duck (λ _ _, inr (ex_engine [] None None)))
    as (t & Ht & _); [reflexivity|reflexivity|].
  exists t. split; [exact Ht|]. split; [reflexivity|].
  exact (Initialize_kind "duckdb" ex_config _ t Ht).
Defined.

(** ** Finalization *)

(** C8. Once the handle has answered with a cursor, the cursor is closed
    when [Invoke] is left, whatever the exit (an error on the columns, a scan
    error, or the normal return).  If every row was scanned and the close
    reports an error, [Invoke] returns that error as the result-close error
    and no rows.  And an error [Err] reports at the end of the iteration is
    returned as the row-iteration error. *)
Theorem Invoke_finalization substitute t params :
  (∀ stmt ps engine,
     tools.ResolveTemplateParams substitute (Tool.TemplateParameters t)
       (Tool.Statement t) (tools.AsMap params) = inr stmt →
     tools.GetParams (Tool.Parameters t) (tools.AsMap params) = inr ps →
     Tool.Db t stmt (tools.AsSlice ps) = inr engine →
     ∃ rs, cursor (Invoke substitute t params).2 = Some rs ∧
           sql.result rs = engine ∧ sql.closed rs = true) ∧
  (∀ rs, cursor (Invoke substitute t params).2 = Some rs → sql.closed rs = true) ∧
  (∀ stmt ps engine cols rows err,
     tools.ResolveTemplateParams substitute (Tool.TemplateParameters t)
       (Tool.Statement t) (tools.AsMap params) = inr stmt →
     tools.GetParams (Tool.Parameters t) (tools.AsMap params) = inr ps →
     Tool.Db t stmt (tools.AsSlice ps) = inr engine →
     sql.res_columns engine = inr cols →
     sql.res_rows engine = inr <$> rows →
     Forall (λ row, length row = length cols) rows →
     sql.res_close engine = Some err →
     (Invoke substitute t params).1 =
       Return AnyNil (Some (Errorf "unable to close rows: %w" [ArgErr err]))) ∧
  (∀ rs err,
     cursor (Invoke substitute t params).2 = Some rs →
     sql.CallErr (Some err) ∈ sql.calls rs →
     (Invoke substitute t params).1 =
       Return AnyNil (Some (Errorf "error iterating rows: %w" [ArgErr err]))) ∧
  (∀ stmt ps engine cols rows err,
     tools.ResolveTemplateParams substitute (Tool.TemplateParameters t)
       (Tool.Statement t) (tools.AsMap params) = inr stmt →
     tools.GetParams (Tool.Parameters t) (tools.AsMap params) = inr ps →
     Tool.Db t stmt (tools.AsSlice ps) = inr engine →
     sql.res_columns engine = inr cols →
     sql.res_rows engine = inr <$> rows →
     Forall (λ row, length row = length cols) rows →
     sql.res_close engine = None →
     sql.res_err engine = Some err →
     (Invoke substitute t params).1 =
       Return AnyNil (Some (Errorf "error iterating rows: %w" [ArgErr err]))).
Proof.
  pose proof (Invoke_stage substitute t params) as Hstage.
  repeat split.
  - intros stmt ps engine Htpl Hps Hdb.
    destruct Hstage as [| | |stmt' ps' res rs Htpl' Hps' Hdb' Hres Hcl _];
      try congruence.
    exists rs. repeat split; [|done]. congruence.
  - intros rs Hcur.
    destruct Hstage as [| | |stmt' ps' res rs' _ _ _ _ Hcl _]; try done.
    simpl in Hcur. by injection Hcur as <-.
  - intros stmt ps engine cols rows err Htpl Hps Hdb Hcols Hrows Hall Hclose.
    rewrite (Invoke_answered _ _ _ _ _ _ Htpl Hps Hdb).
    unfold materialized. rewrite Hcols, Hrows.
    destruct (drain_good cols rows nil_slice Hall) as [result ->].
    cbn [finish]. by rewrite Hclose.
  - intros rs err Hcur Hin.
    destruct Hstage as [| | |stmt' ps' res rs' _ _ _ _ _ Herr]; try done.
    simpl in Hcur. injection Hcur as <-. by apply Herr.
  - intros stmt ps engine cols rows err Htpl Hps Hdb Hcols Hrows Hall Hclose Herr.
    rewrite (Invoke_answered _ _ _ _ _ _ Htpl Hps Hdb).
    unfold materialized. rewrite Hcols, Hrows.
    destruct (drain_good cols rows nil_slice Hall) as [result ->].
    cbn [finish]. by rewrite Hclose, Herr.
Qed.

Lemma Invoke_finalization_witness :
  let t := ex_tool [] (ex_engine [inr [VInt 5; VStr "a"]]
                         (Some (External "connection lost")) None) in
  let t' := ex_tool [] (ex_engine [inr [VInt 5; VStr "a"]]
                          None (Some (External "close failed"))) in
  (∃ rs, cursor (Invoke ex_substitute t [("id", VInt 5)]).2 = Some rs ∧
         sql.closed rs = true ∧
         sql.CallErr (Some (External "connection lost")) ∈ sql.calls rs) ∧
  (Invoke ex_substitute t [("id", VInt 5)]).1 =
    Return AnyNil
      (Some (Errorf "error iterating rows: %w" [ArgErr (External "connection lost")])) ∧
  (Invoke ex_substitute t' [("id", VInt 5)]).1 =
    Return AnyNil
      (Some (Errorf "unable to close rows: %w" [ArgErr (External "close failed")])).
Proof.
  intros t t'.
  destruct (Invoke_finalization ex_substitute t [("id", VInt 5)])
    as (Hclosed & _ & _ & Hreported & _).
  destruct (Invoke_finalization ex_substitute t' [("id", VInt 5)])
    as (_ & _ & Hclose & _).
  destruct (Hclosed "SELECT * FROM t WHERE id = ?" [("id", VInt 5)]
              (ex_engine [inr [VInt 5; VStr "a"]]
                 (Some (External "connection lost")) None))
    as (rs & Hcur & _ & Hcl); [reflexivity..|].
  assert (sql.CallErr (Some (External "connection lost")) ∈ sql.calls rs) as Hin.
  { vm_compute in Hcur. injection Hcur as <-. simpl.
    apply list_elem_of_In. simpl. tauto. }
  split; [|split].
  - by exists rs.
  - by apply (Hreported rs).
  - apply (Hclose "SELECT * FROM t WHERE id = ?" [("id", VInt 5)]
             (ex_engine [inr [VInt 5; VStr "a"]] None (Some (External "close failed")))
             ["id"; "name"] [[VInt 5; VStr "a"]]); try reflexivity.
    repeat constructor.
Defined.

(** ** Totality *)

(** X8. [Invoke] always returns: the buffer is as wide as the column list,
    so no index panics, and the row loop is given fuel for every row.  It
    returns an error exactly when its result is the nil value. *)
Lemma Invoke_returns substitute t params :
  ∃ res err, (Invoke substitute t params).1 = Return res err ∧
             (err = None ↔ res ≠ AnyNil).
Proof.
  destruct (Invoke_stage substitute t params)
    as [err|stmt err|stmt ps err|stmt ps res rs _ _ _ _ _ _];
    try (eexists _, _; split; [reflexivity|]; split; [done|congruence]).
  unfold materialized.
  destruct (sql.res_columns res) as [err|cols].
  { eexists _, _; split; [reflexivity|]; split; [done|congruence]. }
  destruct (drain_exit cols (sql.res_rows res) nil_slice) as [[result ->]|[err ->]].
  - cbn [finish].
    destruct (sql.res_close res); [|destruct (sql.res_err res)];
      eexists _, _; (split; [reflexivity|]); split; done || congruence.
  - eexists _, _; split; [reflexivity|]; split; [done|congruence].
Qed.

(** ** Scenarios *)

(** The statement with the standard parameter id = 5, on a table whose one
    matching row is (5, "a"): one record, nothing else. *)
Example Invoke_by_id :
  Invoke ex_substitute
    (ex_tool [] (ex_engine [inr [VInt 5; VStr "a"]] None None)) [("id", VInt 5)]
  = (Return (AnyRows (backed [{[ "id" := VInt 5; "name" := VStr "a" ]}])) None,
     {| submitted := [("SELECT * FROM t WHERE id = ?", [VInt 5])];
        cursor :=
          Some {| sql.result := ex_engine [inr [VInt 5; VStr "a"]] None None;
                  sql.remaining := [];
                  sql.current := None;
                  sql.closed := true;
                  sql.calls :=
                    [sql.CallColumns; sql.CallNext true; sql.CallScan None;
                     sql.CallNext false; sql.CallClose None; sql.CallErr None;
                     sql.CallClose None] |} |}).
Proof. vm_compute. reflexivity. Qed.

(** A scan error on the second row: the record of the first row is not
    returned, and the deferred [Close] is the one that closes the cursor. *)
Example Invoke_second_row_fails :
  let engine :=
    ex_engine [inr [VInt 5; VStr "a"]; inl (External "conversion failed")]
      None None in
  Invoke ex_substitute (ex_tool [] engine) [("id", VInt 5)]
  = (Return AnyNil
       (Some (Errorf "unable to scan row: %w"
                [ArgErr (External "conversion failed")])),
     {| submitted := [("SELECT * FROM t WHERE id = ?", [VInt 5])];
        cursor :=
          Some {| sql.result := engine;
                  sql.remaining := [];
                  sql.current := Some (inl (External "conversion failed"));
                  sql.closed := true;
                  sql.calls :=
                    [sql.CallColumns; sql.CallNext true; sql.CallScan None;
                     sql.CallNext true;
                     sql.CallScan (Some (External "conversion failed"));
                     sql.CallClose None] |} |}).
Proof. vm_compute. reflexivity. Qed.

(** A value of another type than the declared one is refused before
    anything is submitted. *)
Example Invoke_wrong_type :
  Invoke ex_substitute (ex_tool [] (ex_engine [] None None)) [("id", VStr "5")]
  = (Return AnyNil
       (Some (Errorf "unable to extract standard params %w"
                [ArgErr (Errorf "parameter %q has the wrong type" [ArgStr "id"])])),
     {| submitted := []; cursor := None |}).
Proof. vm_compute. reflexivity. Qed.

(** * Further properties *)

(** ** The calls on the cursor, exactly *)

(** The row loop, with the calls it adds to the ones the cursor served. *)
Lemma scan_rows_calls cols : ∀ fuel res items cur cs values result,
  (length items < fuel)%nat →
  length values = length cols →
  ∃ rem cur',
    scan_rows fuel
      {| sql.result := res; sql.remaining := items; sql.current := cur;
         sql.closed := false; sql.calls := cs |} cols values result
    = (drain cols items result,
       {| sql.result := res; sql.remaining := rem; sql.current := cur';
          sql.closed := false; sql.calls := cs ++ loop_calls cols items |}).
Proof.
  induction fuel as [|fuel IH]; intros res items cur cs values result Hfuel Hlen.
  - lia.
  - destruct items as [|item rest].
    + by eexists _, _.
    + cbn [scan_rows sql.Next sql.closed sql.remaining sql.Scan sql.current
           sql.result sql.calls drain loop_calls].
      rewrite Hlen.
      destruct (sql.scan_outcome (length cols) (Some item)) as [err|vals] eqn:Hscan.
      * eexists _, _. by rewrite <-(assoc_L (++)).
      * destruct (fill_row cols 0 vals ∅) as [rowMap|] eqn:Hfill.
        -- simpl in Hfuel.
           destruct (IH res rest (Some item)
                       ((cs ++ [sql.CallNext true]) ++ [sql.CallScan None])
                       vals (append result rowMap))
             as (rem & cur' & ->); [lia|by eapply scan_outcome_length|].
           eexists _, _. by rewrite <-!(assoc_L (++)).
        -- eexists _, _. by rewrite <-(assoc_L (++)).
Qed.

(** [materialize] and the deferred [Close] on a fresh cursor: the outcome,
    and the cursor as it is left. *)
Lemma materialize_calls res :
  ∃ rs,
    materialize (fresh_cursor res) = (materialized res, rs) ∧
    sql.result (sql.Close rs).2 = res ∧
    sql.closed (sql.Close rs).2 = true ∧
    sql.calls (sql.Close rs).2 = expected_calls res.
Proof.
  unfold materialize, materialized, expected_calls, fresh_cursor.
  cbn [sql.Columns sql.result sql.remaining sql.current sql.closed sql.calls].
  destruct (sql.res_columns res) as [err|cols] eqn:Hcols.
  - eexists. split; [reflexivity|]. by repeat split.
  - destruct (scan_rows_calls cols (S (length (sql.res_rows res))) res
                (sql.res_rows res) None ([] ++ [sql.CallColumns])
                (replicate (length cols) VNil) nil_slice)
      as (rem & cur' & ->); [lia|by rewrite length_replicate|].
    destruct (drain cols (sql.res_rows res) nil_slice) as [result|out] eqn:Hdrain.
    + cbn [sql.Close sql.closed sql.result sql.calls sql.remaining sql.current
           finish].
      destruct (sql.res_close res) as [cerr|] eqn:Hclose.
      * eexists. split; [reflexivity|].
        repeat split; cbn; by rewrite <-?(assoc_L (++)).
      * cbn [sql.Err sql.result sql.calls sql.closed sql.remaining sql.current].
        destruct (sql.res_err res) as [ierr|] eqn:Hierr;
          (eexists; split; [reflexivity|]);
          repeat split; cbn; by rewrite <-?(assoc_L (++)).
    + cbn [finish]. eexists. split; [reflexivity|].
      repeat split; cbn; by rewrite <-?(assoc_L (++)).
Qed.

(** What an invocation that obtained a cursor did: it submitted one
    statement, the handle answered with the result the cursor is over, the
    outcome is the one of that result, and the cursor was left closed after
    the calls of that result. *)
Lemma Invoke_cursor substitute t params rs :
  cursor (Invoke substitute t params).2 = Some rs →
  ∃ stmt args,
    submitted (Invoke substitute t params).2 = [(stmt, args)] ∧
    Tool.Db t stmt args = inr (sql.result rs) ∧
    (Invoke substitute t params).1 = materialized (sql.result rs) ∧
    sql.closed rs = true ∧
    sql.calls rs = expected_calls (sql.result rs).
Proof.
  unfold Invoke.
  destruct (tools.ResolveTemplateParams _ _ _ _) as [err|stmt]; [done|].
  destruct (tools.GetParams _ _) as [err|ps]; [done|].
  rewrite QueryContext_fresh.
  destruct (Tool.Db t stmt (tools.AsSlice ps)) as [err|res] eqn:Hdb; [done|].
  destruct (materialize_calls res) as (rs' & -> & Hres & Hcl & Hcalls).
  cbn [fst snd cursor submitted]. intros Hcur.
  assert (rs = (sql.Close rs').2) as -> by congruence.
  exists stmt, (tools.AsSlice ps). rewrite Hres. by repeat split.
Qed.

(** The same, read from the stages: once the handle answered, this is the
    whole of what [Invoke] returns and does. *)
Lemma Invoke_answered_cursor substitute t params stmt ps engine :
  tools.ResolveTemplateParams substitute (Tool.TemplateParameters t)
    (Tool.Statement t) (tools.AsMap params) = inr stmt →
  tools.GetParams (Tool.Parameters t) (tools.AsMap params) = inr ps →
  Tool.Db t stmt (tools.AsSlice ps) = inr engine →
  ∃ rs,
    Invoke substitute t params =
      (materialized engine,
       {| submitted := [(stmt, tools.AsSlice ps)]; cursor := Some rs |}) ∧
    sql.result rs = engine ∧
    sql.closed rs = true ∧
    sql.calls rs = expected_calls engine.
Proof.
  intros Htpl Hps Hdb. unfold Invoke.
  rewrite Htpl, Hps, QueryContext_fresh, Hdb.
  destruct (materialize_calls engine) as (rs' & -> & Hres & Hcl & Hcalls).
  by exists (sql.Close rs').2.
Qed.

Lemma loop_calls_iteration cols items :
  Forall iteration_call (loop_calls cols items).
Proof.
  induction items as [|item rest IH]; cbn [loop_calls].
  - by repeat constructor.
  - destruct (sql.scan_outcome (length cols) (Some item)) as [err|vals];
      [by repeat constructor|].
    destruct (fill_row cols 0 vals ∅); by repeat constructor.
Qed.

(** The loop's calls lead from [Columns], or from a scan that succeeded, to
    the [Next] that found no row when the loop drains the cursor, and to a
    failed scan otherwise. *)
Lemma loop_calls_run cols : ∀ items result ph tl,
  ph = Described ∨ ph = Scanned →
  protocol_run ph (loop_calls cols items ++ tl) =
  protocol_run
    match drain cols items result with Drained _ => Stopped | Aborted _ => Failed end
    tl.
Proof.
  induction items as [|item rest IH]; intros result ph tl Hph;
    cbn [loop_calls drain].
  - by destruct Hph as [-> | ->].
  - destruct (sql.scan_outcome (length cols) (Some item)) as [err|vals] eqn:Hscan.
    + by destruct Hph as [-> | ->].
    + apply scan_outcome_length in Hscan.
      destruct (fill_row_is_Some cols 0 vals ∅) as [rowMap ->]; [simpl; lia|].
      rewrite <-(IH (append result rowMap) Scanned tl) by by right.
      by destruct Hph as [-> | ->].
Qed.

Lemma expected_calls_follow_protocol res : follows_protocol (expected_calls res).
Proof.
  unfold follows_protocol, expected_calls. cbn [protocol_run protocol_step].
  destruct (sql.res_columns res) as [err|cols]; [done|].
  rewrite (loop_calls_run cols _ nil_slice) by by left.
  destruct (drain cols (sql.res_rows res) nil_slice); [|done].
  by destruct (sql.res_close res).
Qed.

(** X1. Whatever the invocation, the calls made on the cursor it obtained
    come in the order the cursor allows: [Columns] first; a [Scan] only
    right after a [Next] that found a row; no [Next] after a [Scan] that
    failed or a [Next] that found no row; [Err] once at most, only after a
    [Close] that reported nothing; a [Close] last, and nothing after it. *)
Theorem Invoke_cursor_protocol substitute t params rs :
  cursor (Invoke substitute t params).2 = Some rs →
  follows_protocol (sql.calls rs).
Proof.
  intros (stmt & args & _ & _ & _ & _ & ->)%Invoke_cursor.
  apply expected_calls_follow_protocol.
Qed.

Lemma Invoke_cursor_protocol_witness :
  ∃ rs,
    cursor (Invoke ex_substitute
              (ex_tool []
                 (ex_engine [inr [VInt 5; VStr "a"]; inl (External "conversion failed")]
                    None (Some (External "close failed"))))
              [("id", VInt 5)]).2 = Some rs ∧
    follows_protocol (sql.calls rs).
Proof.
  eexists. split; [reflexivity|].
  apply (Invoke_cursor_protocol ex_substitute
           (ex_tool []
              (ex_engine [inr [VInt 5; VStr "a"]; inl (External "conversion failed")]
                 None (Some (External "close failed"))))
           [("id", VInt 5)]).
  reflexivity.
Defined.

(** X2. When [Columns] fails, [Invoke] returns the nil result and that
    error, wrapped as the column-names error; no row is asked for, and the
    deferred [Close] closes the cursor, what it reports being dropped. *)
Theorem Invoke_columns_error substitute t params stmt ps engine err :
  tools.ResolveTemplateParams substitute (Tool.TemplateParameters t)
    (Tool.Statement t) (tools.AsMap params) = inr stmt →
  tools.GetParams (Tool.Parameters t) (tools.AsMap params) = inr ps →
  Tool.Db t stmt (tools.AsSlice ps) = inr engine →
  sql.res_columns engine = inl err →
  (Invoke substitute t params).1 =
    Return AnyNil (Some (Errorf "unable to get column names: %w" [ArgErr err])) ∧
  ∃ rs,
    cursor (Invoke substitute t params).2 = Some rs ∧
    sql.closed rs = true ∧
    sql.calls rs = [sql.CallColumns; sql.CallClose (sql.res_close engine)].
Proof.
  intros Htpl Hps Hdb Hcols.
  destruct (Invoke_answered_cursor _ _ _ _ _ _ Htpl Hps Hdb)
    as (rs & -> & _ & Hcl & Hcalls).
  unfold materialized, expected_calls in *. rewrite Hcols in *.
  split; [done|]. by exists rs.
Qed.

Lemma Invoke_columns_error_witness :
  let engine :=
    {| sql.res_columns := inl (External "result set gone");
       sql.res_rows := [inr [VInt 5; VStr "a"]];
       sql.res_err := None;
       sql.res_close := Some (External "close failed") |} in
  (Invoke ex_substitute (ex_tool [] engine) [("id", VInt 5)]).1 =
    Return AnyNil
      (Some (Errorf "unable to get column names: %w"
               [ArgErr (External "result set gone")])) ∧
  ∃ rs,
    cursor (Invoke ex_substitute (ex_tool [] engine) [("id", VInt 5)]).2 = Some rs ∧
    sql.closed rs = true ∧
    sql.calls rs =
      [sql.CallColumns; sql.CallClose (Some (External "close failed"))].
Proof.
  intros engine.
  apply (Invoke_columns_error ex_substitute (ex_tool [] engine) [("id", VInt 5)]
           "SELECT * FROM t WHERE id = ?" [("id", VInt 5)] engine
           (External "result set gone"));
    reflexivity.
Defined.

Lemma loop_calls_good cols : ∀ rows : list (list value),
  Forall (λ row, length row = length cols) rows →
  loop_calls cols (inr <$> rows) =
  flat_map (λ _, [sql.CallNext true; sql.CallScan None]) rows ++
  [sql.CallNext false].
Proof.
  induction rows as [|row rows IH]; intros Hall; cbn [loop_calls fmap list_fmap].
  - done.
  - apply Forall_cons in Hall as [Hlen Hall].
    rewrite (scan_outcome_good _ _ Hlen).
    destruct (fill_row_is_Some cols 0 row ∅) as [rowMap ->]; [simpl; lia|].
    by rewrite (IH Hall).
Qed.

Lemma loop_calls_first_bad cols : ∀ (good : list (list value)) bad rest err,
  Forall (λ row, length row = length cols) good →
  sql.scan_outcome (length cols) (Some bad) = inl err →
  loop_calls cols ((inr <$> good) ++ bad :: rest) =
  flat_map (λ _, [sql.CallNext true; sql.CallScan None]) good ++
  [sql.CallNext true; sql.CallScan (Some err)].
Proof.
  induction good as [|row good IH]; intros bad rest err Hall Hbad;
    cbn [loop_calls fmap list_fmap app].
  - by rewrite Hbad.
  - apply Forall_cons in Hall as [Hlen Hall].
    rewrite (scan_outcome_good _ _ Hlen).
    destruct (fill_row_is_Some cols 0 row ∅) as [rowMap ->]; [simpl; lia|].
    by rewrite (IH _ rest _ Hall Hbad).
Qed.

(** X3. When the scan of a row fails, [Invoke] asks for no further row: the
    calls on the cursor are [Columns], a [Next] and a [Scan] for each row
    before the failing one, the [Next] and the failing [Scan], and then the
    deferred [Close] alone, whose own error, if it reports one, is dropped:
    neither the explicit [Close] nor [Err] is called. *)
Theorem Invoke_scan_failure_calls substitute t params stmt ps engine cols good bad
    rest err :
  tools.ResolveTemplateParams substitute (Tool.TemplateParameters t)
    (Tool.Statement t) (tools.AsMap params) = inr stmt →
  tools.GetParams (Tool.Parameters t) (tools.AsMap params) = inr ps →
  Tool.Db t stmt (tools.AsSlice ps) = inr engine →
  sql.res_columns engine = inr cols →
  sql.res_rows engine = (inr <$> good) ++ bad :: rest →
  Forall (λ row, length row = length cols) good →
  sql.scan_outcome (length cols) (Some bad) = inl err →
  ∃ rs,
    cursor (Invoke substitute t params).2 = Some rs ∧
    sql.closed rs = true ∧
    sql.calls rs =
      sql.CallColumns ::
      flat_map (λ _, [sql.CallNext true; sql.CallScan None]) good ++
      [sql.CallNext true; sql.CallScan (Some err);
       sql.CallClose (sql.res_close engine)].
Proof.
  intros Htpl Hps Hdb Hcols Hrows Hall Hbad.
  destruct (Invoke_answered_cursor _ _ _ _ _ _ Htpl Hps Hdb)
    as (rs & -> & _ & Hcl & Hcalls).
  exists rs. repeat split; [done|].
  rewrite Hcalls. unfold expected_calls. rewrite Hcols, Hrows.
  rewrite (drain_first_bad cols good bad rest err nil_slice Hall Hbad).
  rewrite (loop_calls_first_bad cols good bad rest err Hall Hbad).
  by rewrite <-(assoc_L (++)).
Qed.

Lemma Invoke_scan_failure_calls_witness :
  let engine :=
    ex_engine [inr [VInt 5; VStr "a"]; inl (External "conversion failed");
               inr [VInt 5; VNil]]
      (Some (External "connection lost")) (Some (External "close failed")) in
  ∃ rs,
    cursor (Invoke ex_substitute (ex_tool [] engine) [("id", VInt 5)]).2 = Some rs ∧
    sql.closed rs = true ∧
    sql.calls rs =
      [sql.CallColumns; sql.CallNext true; sql.CallScan None;
       sql.CallNext true; sql.CallScan (Some (External "conversion failed"));
       sql.CallClose (Some (External "close failed"))].
Proof.
  intros engine.
  apply (Invoke_scan_failure_calls ex_substitute (ex_tool [] engine)
           [("id", VInt 5)] "SELECT * FROM t WHERE id = ?" [("id", VInt 5)]
           engine ["id"; "name"] [[VInt 5; VStr "a"]]
           (inl (External "conversion failed")) [inr [VInt 5; VNil]]);
    try reflexivity.
  repeat constructor.
Defined.

(** X4. When every row was scanned, the calls on the cursor are [Columns],
    a [Next] and a [Scan] per row, the [Next] that finds no row and the
    explicit [Close]; [Err] is called only if that [Close] reported
    nothing, so that a close error hides an iteration error: it is the one
    returned, and [Err] is not read.  The deferred [Close] comes last. *)
Theorem Invoke_drained_calls substitute t params stmt ps engine cols rows :
  tools.ResolveTemplateParams substitute (Tool.TemplateParameters t)
    (Tool.Statement t) (tools.AsMap params) = inr stmt →
  tools.GetParams (Tool.Parameters t) (tools.AsMap params) = inr ps →
  Tool.Db t stmt (tools.AsSlice ps) = inr engine →
  sql.res_columns engine = inr cols →
  sql.res_rows engine = inr <$> rows →
  Forall (λ row, length row = length cols) rows →
  ∃ rs,
    cursor (Invoke substitute t params).2 = Some rs ∧
    sql.calls rs =
      sql.CallColumns ::
      flat_map (λ _, [sql.CallNext true; sql.CallScan None]) rows ++
      sql.CallNext false ::
      match sql.res_close engine with
      | Some cerr => [sql.CallClose (Some cerr); sql.CallClose None]
      | None =>
          [sql.CallClose None; sql.CallErr (sql.res_err engine);
           sql.CallClose None]
      end ∧
    ∀ cerr,
      sql.res_close engine = Some cerr →
      (Invoke substitute t params).1 =
        Return AnyNil (Some (Errorf "unable to close rows: %w" [ArgErr cerr])) ∧
      ∀ ierr, sql.CallErr ierr ∉ sql.calls rs.
Proof.
  intros Htpl Hps Hdb Hcols Hrows Hall.
  destruct (Invoke_answered_cursor _ _ _ _ _ _ Htpl Hps Hdb)
    as (rs & -> & _ & Hcl & Hcalls).
  exists rs. split; [done|].
  assert (sql.calls rs =
      sql.CallColumns ::
      flat_map (λ _, [sql.CallNext true; sql.CallScan None]) rows ++
      sql.CallNext false ::
      match sql.res_close engine with
      | Some cerr => [sql.CallClose (Some cerr); sql.CallClose None]
      | None =>
          [sql.CallClose None; sql.CallErr (sql.res_err engine);
           sql.CallClose None]
      end) as Hlog.
  { rewrite Hcalls. unfold expected_calls. rewrite Hcols, Hrows.
    destruct (drain_good cols rows nil_slice Hall) as [result ->].
    rewrite (loop_calls_good cols rows Hall).
    by rewrite <-(assoc_L (++)). }
  split; [done|]. intros cerr Hclose. split.
  - cbn [fst]. unfold materialized. rewrite Hcols, Hrows.
    destruct (drain_good cols rows nil_slice Hall) as [result ->].
    cbn [finish]. by rewrite Hclose.
  - intros ierr Hin. rewrite Hlog, Hclose in Hin.
    apply elem_of_cons in Hin as [Hin|Hin]; [done|].
    apply elem_of_app in Hin as [Hin|Hin].
    + apply list_elem_of_In, in_flat_map in Hin as (row & _ & Hin).
      simpl in Hin. by destruct Hin as [Hin|[Hin|[]]].
    + apply list_elem_of_In in Hin. simpl in Hin.
      by destruct Hin as [Hin|[Hin|[Hin|[]]]].
Qed.

Lemma Invoke_drained_calls_witness :
  let engine :=
    ex_engine [inr [VInt 5; VStr "a"]]
      (Some (External "connection lost")) (Some (External "close failed")) in
  ∃ rs,
    cursor (Invoke ex_substitute (ex_tool [] engine) [("id", VInt 5)]).2 = Some rs ∧
    sql.calls rs =
      [sql.CallColumns; sql.CallNext true; sql.CallScan None; sql.CallNext false;
       sql.CallClose (Some (External "close failed")); sql.CallClose None] ∧
    ∀ cerr,
      sql.res_close engine = Some cerr →
      (Invoke ex_substitute (ex_tool [] engine) [("id", VInt 5)]).1 =
        Return AnyNil (Some (Errorf "unable to close rows: %w" [ArgErr cerr])) ∧
      ∀ ierr, sql.CallErr ierr ∉ sql.calls rs.
Proof.
  intros engine.
  apply (Invoke_drained_calls ex_substitute (ex_tool [] engine)
           [("id", VInt 5)] "SELECT * FROM t WHERE id = ?" [("id", VInt 5)]
           engine ["id"; "name"] [[VInt 5; VStr "a"]]);
    try reflexivity.
  repeat constructor.
Defined.

(** ** The stages before the cursor *)

(** X5. When the handle refuses the statement, [Invoke] returns the nil
    result and the handle's error, wrapped as the execution error; the
    statement was submitted that one time, and there is no cursor to
    close. *)
Theorem Invoke_query_error substitute t params stmt ps err :
  tools.ResolveTemplateParams substitute (Tool.TemplateParameters t)
    (Tool.Statement t) (tools.AsMap params) = inr stmt →
  tools.GetParams (Tool.Parameters t) (tools.AsMap params) = inr ps →
  Tool.Db t stmt (tools.AsSlice ps) = inl err →
  Invoke substitute t params =
    (Return AnyNil (Some (Errorf "unable to execute query: %w" [ArgErr err])),
     {| submitted := [(stmt, tools.AsSlice ps)]; cursor := None |}).
Proof.
  intros Htpl Hps Hdb. unfold Invoke.
  by rewrite Htpl, Hps, QueryContext_fresh, Hdb.
Qed.

Lemma Invoke_query_error_witness :
  let t :=
    {| Tool.Name := "by-id"; Tool.Kind := kind; Tool.AuthRequired := [];
       Tool.Parameters := [ex_id]; Tool.TemplateParameters := [];
       Tool.AllParams := [ex_id];
       Tool.Db := λ _ _, inl (External "no such table");
       Tool.Statement := "SELECT * FROM t WHERE id = ?";
       Tool.manifest := Tool.manifest (ex_tool [] (ex_engine [] None None));
       Tool.mcpManifest := Tool.mcpManifest (ex_tool [] (ex_engine [] None None)) |} in
  Invoke ex_substitute t [("id", VInt 5)] =
    (Return AnyNil
       (Some (Errorf "unable to execute query: %w" [ArgErr (External "no such table")])),
     {| submitted := [("SELECT * FROM t WHERE id = ?", [VInt 5])]; cursor := None |}).
Proof.
  intros t.
  apply (Invoke_query_error ex_substitute t [("id", VInt 5)]
           "SELECT * FROM t WHERE id = ?" [("id", VInt 5)]
           (External "no such table"));
    reflexivity.
Defined.


(** X7. Every error [Invoke] returns is one it made itself: the format of
    one of its seven stages, wrapping with the verb w the error of the
    collaborator that failed.  No error of a collaborator is returned as it
    is. *)
Theorem Invoke_errors_wrapped substitute t params res err :
  (Invoke substitute t params).1 = Return res (Some err) →
  ∃ format inner, err = Errorf format [ArgErr inner] ∧ format ∈ stage_formats.
Proof.
  unfold stage_formats.
  destruct (Invoke_stage substitute t params)
    as [e|stmt e|stmt ps e|stmt ps engine rs _ _ _ _ _ _].
  - intros [= _ <-]. eexists _, _. split; [done|]. set_solver.
  - intros [= _ <-]. eexists _, _. split; [done|]. set_solver.
  - intros [= _ <-]. eexists _, _. split; [done|]. set_solver.
  - unfold materialized.
    destruct (sql.res_columns engine) as [e|cols].
    { intros [= _ <-]. eexists _, _. split; [done|]. set_solver. }
    destruct (drain_exit cols (sql.res_rows engine) nil_slice)
      as [[result ->]|[e ->]].
    + cbn [finish].
      destruct (sql.res_close engine); [|destruct (sql.res_err engine)];
        intros [= _ <-]; eexists _, _; (split; [done|]); set_solver.
    + intros [= _ <-]. eexists _, _. split; [done|]. set_solver.
Qed.

Lemma Invoke_errors_wrapped_witness :
  ∃ format inner,
    Errorf "error iterating rows: %w" [ArgErr (External "connection lost")] =
      Errorf format [ArgErr inner] ∧
    format ∈ stage_formats.
Proof.
  apply (Invoke_errors_wrapped ex_substitute
           (ex_tool [] (ex_engine [inr [VInt 5; VStr "a"]]
                          (Some (External "connection lost")) None))
           [("id", VInt 5)] AnyNil).
  reflexivity.
Defined.

(** ** Records and result sets *)

Lemma remove_dups_length_le (l : list string) :
  (length (remove_dups l) ≤ length l)%nat.
Proof.
  induction l as [|x l IH]; simpl; [done|].
  destruct (decide_rel elem_of x l); simpl; lia.
Qed.

Lemma remove_dups_length_eq (l : list string) :
  length (remove_dups l) = length l ↔ NoDup l.
Proof.
  induction l as [|x l IH]; simpl.
  - split; [constructor|done].
  - rewrite NoDup_cons. pose proof (remove_dups_length_le l).
    destruct (decide_rel elem_of x l); simpl.
    + split; [lia|]. by intros [? _].
    + rewrite <-IH. split; [intros [=]; done|intros [_ ->]; done].
Qed.

Lemma list_to_set_remove_dups (l : list string) :
  list_to_set (C := gset string) (remove_dups l) = list_to_set l.
Proof.
  apply set_eq. intros x.
  by rewrite !elem_of_list_to_set, elem_of_remove_dups.
Qed.

(** X9. The record of a row has one key per distinct column name: as many
    keys as columns when the names are distinct, and fewer as soon as two
    columns share a name, the values of all but the last of them being
    lost. *)
Theorem record_size cols row rec :
  record_of cols row rec →
  size rec = length (remove_dups cols) ∧
  (size rec ≤ length cols)%nat ∧
  (size rec = length cols ↔ NoDup cols).
Proof.
  intros Hrec.
  assert (size rec = length (remove_dups cols)) as Hsize.
  { rewrite <-size_dom, (fill_row_dom _ _ _ _ _ Hrec), dom_empty_L.
    rewrite (left_id_L ∅ (∪)), <-list_to_set_remove_dups.
    apply size_list_to_set, NoDup_remove_dups. }
  rewrite Hsize. split; [done|]. split.
  - apply remove_dups_length_le.
  - apply remove_dups_length_eq.
Qed.

Lemma record_size_witness :
  size ({[ "a" := VInt 5 ]} : ResultRecord) = length (remove_dups ["a"; "a"]) ∧
  (size ({[ "a" := VInt 5 ]} : ResultRecord) ≤ length ["a"; "a"])%nat ∧
  (size ({[ "a" := VInt 5 ]} : ResultRecord) = length ["a"; "a"] ↔
   NoDup ["a"; "a"]).
Proof.
  apply (record_size ["a"; "a"] [VNil; VInt 5] {[ "a" := VInt 5 ]}).
  vm_compute. reflexivity.
Defined.

Lemma drain_keeps_backed cols : ∀ items l result',
  drain cols items (backed l) = Drained result' → ∃ l', result' = backed l'.
Proof.
  induction items as [|item rest IH]; intros l result'; cbn [drain].
  - intros [= <-]. by eexists.
  - destruct (sql.scan_outcome (length cols) (Some item)) as [err|vals];
      [done|].
    destruct (fill_row cols 0 vals ∅) as [rowMap|]; [|done].
    apply IH.
Qed.

(** X10. The slice a successful invocation returns is Go's nil slice
    exactly when the engine delivered no row; from one row on it is a slice
    with a backing array. *)
Theorem Invoke_nil_slice_iff_no_rows substitute t params stmt ps engine cols rows :
  tools.ResolveTemplateParams substitute (Tool.TemplateParameters t)
    (Tool.Statement t) (tools.AsMap params) = inr stmt →
  tools.GetParams (Tool.Parameters t) (tools.AsMap params) = inr ps →
  Tool.Db t stmt (tools.AsSlice ps) = inr engine →
  sql.res_columns engine = inr cols →
  sql.res_rows engine = inr <$> rows →
  Forall (λ row, length row = length cols) rows →
  sql.res_close engine = None →
  sql.res_err engine = None →
  ∃ result,
    (Invoke substitute t params).1 = Return (AnyRows result) None ∧
    (result = nil_slice ↔ rows = []).
Proof.
  intros Htpl Hps Hdb Hcols Hrows Hall Hclose Herr.
  rewrite (Invoke_answered _ _ _ _ _ _ Htpl Hps Hdb).
  unfold materialized. rewrite Hcols, Hrows.
  destruct (drain_good cols rows nil_slice Hall) as [result Hdrain].
  rewrite Hdrain. cbn [finish]. rewrite Hclose, Herr.
  exists result. split; [done|].
  destruct rows as [|row rows].
  - simpl in Hdrain. by injection Hdrain as <-.
  - split; [|done]. intros ->. revert Hdrain. cbn [drain fmap list_fmap].
    destruct (sql.scan_outcome (length cols) (Some (inr row))) as [err|vals];
      [done|].
    destruct (fill_row cols 0 vals ∅) as [rowMap|]; [|done].
    by intros [l' [=]]%drain_keeps_backed.
Qed.

Lemma Invoke_nil_slice_iff_no_rows_witness :
  ∃ result,
    (Invoke ex_substitute
       (ex_tool [] (ex_engine [inr [VInt 5; VStr "a"]] None None))
       [("id", VInt 5)]).1
    = Return (AnyRows result) None ∧
    (result = nil_slice ↔ [[VInt 5; VStr "a"]] = []).
Proof.
  apply (Invoke_nil_slice_iff_no_rows ex_substitute _ _
           "SELECT * FROM t WHERE id = ?" [("id", VInt 5)]
           (ex_engine [inr [VInt 5; VStr "a"]] None None)
           ["id"; "name"] [[VInt 5; VStr "a"]]);
    try reflexivity.
  repeat constructor.
Defined.

(** ** Construction, and construction followed by invocation *)

(** X11. [Initialize] returns a tool or an error, never both and never
    neither; it returns a tool exactly when the registry holds the named
    source and that source has the SQL-handle capability, and the handle of
    the tool is then the one of that source. *)
Theorem Initialize_outcome duckdb_SourceKind c srcs :
  (∃ t rawS,
     Initialize duckdb_SourceKind c srcs = (Some t, None) ∧
     srcs !! Config.Source c = Some rawS ∧
     sources.DuckDb rawS = Some (Tool.Db t)) ∨
  (∃ err,
     Initialize duckdb_SourceKind c srcs = (None, Some err) ∧
     (srcs !! Config.Source c = None ∨
      ∃ rawS, srcs !! Config.Source c = Some rawS ∧ sources.DuckDb rawS = None)).
Proof.
  unfold Initialize.
  destruct (srcs !! Config.Source c) as [rawS|] eqn:Hsrc.
  - destruct (sources.DuckDb rawS) as [db|] eqn:Hdb.
    + left. by eexists _, rawS.
    + right. eexists. split; [done|]. right. by exists rawS.
  - right. eexists. split; [done|]. by left.
Qed.

(** X12. The tool [Initialize] builds keeps the configuration's name,
    statement, standard and template parameters and authorization
    requirements as they are, and its kind is the one [ToolConfigKind]
    reports for the configuration. *)
Theorem Initialize_fields duckdb_SourceKind c srcs t :
  Initialize duckdb_SourceKind c srcs = (Some t, None) →
  Tool.Name t = Config.Name c ∧
  Tool.Statement t = Config.Statement c ∧
  Tool.Parameters t = Config.Parameters c ∧
  Tool.TemplateParameters t = Config.TemplateParameters c ∧
  Tool.AuthRequired t = Config.AuthRequired c ∧
  Tool.Kind t = ToolConfigKind c ∧
  tools.ManifestAuthRequired (Manifest t) = Tool.AuthRequired t ∧
  tools.McpName (McpManifest t) = Tool.Name t.
Proof.
  intros Hinit.
  apply Initialize_Some in Hinit as (_ & rawS & db & _ & _ & Ht). by subst t.
Qed.

Lemma Initialize_fields_witness :
  ∃ t,
    Initialize "duckdb" ex_config {[ "my-duck" := ex_duck ]} = (Some t, None) ∧
    Tool.Name t = "by-id" ∧
    Tool.Statement t = "SELECT * FROM t WHERE id = ?" ∧
    Tool.Parameters t = [ex_id] ∧
    Tool.TemplateParameters t = [ex_table] ∧
    Tool.AuthRequired t = ["google"] ∧
    Tool.Kind t = "duckdb-sql".
Proof.
  destruct (Initialize_compatible "duckdb" ex_config {[ "my-duck" := ex_duck ]}
              ex_duck (λ _ _, inr (ex_engine [] None None)))
    as (t & Ht & _); [reflexivity|reflexivity|].
  exists t. split; [exact Ht|].
  destruct (Initialize_fields "duckdb" ex_config _ t Ht)
    as (-> & -> & -> & -> & -> & -> & _).
  by repeat split.
Defined.

(** X13. Construction followed by invocation: the tool built from a
    configuration submits, to the handle of the source the configuration
    names, the configuration's statement as resolved with its template
    parameters, with the values of its standard parameters as arguments;
    the cursor it reads, and closes, is the one over that handle's answer. *)
Theorem Initialize_then_Invoke duckdb_SourceKind substitute c srcs t rawS db params
    stmt ps engine :
  Initialize duckdb_SourceKind c srcs = (Some t, None) →
  srcs !! Config.Source c = Some rawS →
  sources.DuckDb rawS = Some db →
  tools.ResolveTemplateParams substitute (Config.TemplateParameters c)
    (Config.Statement c) (tools.AsMap params) = inr stmt →
  tools.GetParams (Config.Parameters c) (tools.AsMap params) = inr ps →
  db stmt (tools.AsSlice ps) = inr engine →
  submitted (Invoke substitute t params).2 = [(stmt, tools.AsSlice ps)] ∧
  ∃ rs,
    cursor (Invoke substitute t params).2 = Some rs ∧
    sql.result rs = engine ∧
    sql.closed rs = true.
Proof.
  intros Hinit Hsrc Hcap Htpl Hps Hdb.
  apply Initialize_Some in Hinit as (_ & rawS' & db' & Hsrc' & Hcap' & Ht).
  assert (db' = db) as -> by congruence.
  destruct (Invoke_answered_cursor substitute t params stmt ps engine)
    as (rs & -> & Hres & Hcl & _); [by subst t..|].
  split; [done|]. by exists rs.
Qed.

Lemma Initialize_then_Invoke_witness :
  ∃ t,
    Initialize "duckdb" ex_config {[ "my-duck" := ex_duck ]} = (Some t, None) ∧
    submitted (Invoke ex_substitute t [("id", VInt 5); ("table", VStr "t")]).2 =
      [("SELECT * FROM t WHERE id = ?", [VInt 5])] ∧
    ∃ rs,
      cursor (Invoke ex_substitute t [("id", VInt 5); ("table", VStr "t")]).2
        = Some rs ∧
      sql.result rs = ex_engine [] None None ∧
      sql.closed rs = true.
Proof.
  destruct (Initialize_compatible "duckdb" ex_config {[ "my-duck" := ex_duck ]}
              ex_duck (λ _ _, inr (ex_engine [] None None)))
    as (t & Ht & _); [reflexivity|reflexivity|].
  exists t. split; [exact Ht|].
  apply (Initialize_then_Invoke "duckdb" ex_substitute ex_config
           {[ "my-duck" := ex_duck ]} t ex_duck
           (λ _ _, inr (ex_engine [] None None))
           [("id", VInt 5); ("table", VStr "t")]
           "SELECT * FROM t WHERE id = ?" [("id", VInt 5)]
           (ex_engine [] None None) Ht);
    reflexivity.
Defined.
